(** * Evaluation notebook (lecture 4.3): a shallow embedding

    The notebook [ml_engineering/4.3_evaluation_pt.2/evaluation_pt.2.ipynb]
    defines a handful of Python functions ([tasty_ratio], [evaluate],
    [confidence_intervals]) and a bootstrap loop; everything else is a call
    into numpy or scikit-learn.

    Conventions of the embedding:
    - Python floats are exact rationals ([Q]); rounding error and nan are
      out of the model.  Equalities between scores are stated with [==].
    - A Python exception is a value of [exn]; a computation that may raise
      returns a [result].
    - Library routines (np.percentile, the sklearn metrics, resample, the
      splitters) are not part of the notebook.  They are either parameters
      of the notebook's functions or modelled in a module of their own. *)

From Stdlib Require Import QArith Qround Qabs Lqa ZArith List Lia Bool.
From Stdlib Require Import Permutation Sorted.
Import ListNotations.

Open Scope Q_scope.

(** ** Python values and exceptions *)

Module Py.

Inductive exn : Type :=
| NameError
| IndexError
| ValueError
| ZeroDivisionError.

Inductive result (A : Type) : Type :=
| Ok (a : A)
| Raise (e : exn).

Arguments Ok {A} a.
Arguments Raise {A} e.

Definition bind {A B} (r : result A) (k : A -> result B) : result B :=
  match r with
  | Ok a => k a
  | Raise e => Raise e
  end.

Definition is_ok {A} (r : result A) : bool :=
  match r with Ok _ => true | Raise _ => false end.

(** [max(a, b)] keeps its first argument unless the second is strictly
    larger; [min(a, b)] keeps the first unless the second is strictly
    smaller. *)
Definition Qltb (a b : Q) : bool := negb (Qle_bool b a).

Definition max (a b : Q) : Q := if Qltb a b then b else a.
Definition min (a b : Q) : Q := if Qltb b a then b else a.

(** A tuple of floats, as [return lower_limit, upper_limit] builds one. *)
Definition tuple := list Q.

(** [a, b = t]: unpacking into two names raises ValueError unless the
    tuple has exactly two components. *)
Definition unpack2 (t : tuple) : result (Q * Q) :=
  match t with
  | [a; b] => Ok (a, b)
  | _ => Raise ValueError
  end.

(** True division of an integer count by a length. *)
Definition truediv (n d : nat) : result Q :=
  match d with
  | O => Raise ZeroDivisionError
  | S _ => Ok (Z.of_nat n # Pos.of_nat d)
  end.

End Py.

Import Py.

Notation "x <- c1 ;; c2" := (Py.bind c1 (fun x => c2))
  (at level 61, c1 at next level, right associativity).

(** ** numpy: percentile *)

Module Numpy.

(** The order statistics of an array: the array in ascending order. *)

Fixpoint insert (x : Q) (l : list Q) : list Q :=
  match l with
  | [] => [x]
  | y :: t => if Qle_bool x y then x :: l else y :: insert x t
  end.

Fixpoint sort (l : list Q) : list Q :=
  match l with
  | [] => []
  | x :: t => insert x (sort t)
  end.

Definition lerp (a b t : Q) : Q := a + (b - a) * t.

(** Linear interpolation at a virtual (fractional) index of a sorted
    array: between the order statistic at the floor of the index and the
    next one, the last index being clipped to [n-1]. *)
Definition interpolate (arr : list Q) (virtual_index : Q) : Q :=
  let n := Z.of_nat (length arr) in
  let previous := Qfloor virtual_index in
  let next := Z.min (previous + 1) (n - 1) in
  let gamma := virtual_index - inject_Z previous in
  lerp (nth (Z.to_nat previous) arr 0) (nth (Z.to_nat next) arr 0) gamma.

(** Modelled from the spec: np.percentile is numpy's routine, not code of
    the notebook.  The spec asks for percentiles "using linear interpolation
    between order statistics", which is numpy's default method: with the
    data sorted and [n] its length, the virtual index of the [q]-th
    percentile is [(n-1) * q/100].  A percentile outside [0, 100] is a
    ValueError; an empty array has no order statistic to index
    (IndexError). *)
Definition percentile (a : list Q) (q : Q) : result Q :=
  if negb (Qle_bool 0 q && Qle_bool q 100) then Raise ValueError
  else
    match a with
    | [] => Raise IndexError
    | _ :: _ =>
        let arr := sort a in
        let n := Z.of_nat (length arr) in
        Ok (interpolate arr (inject_Z (n - 1) * (q / 100)))
    end.

(** Modelled from the spec: [np.array(a).mean()], the point estimate the
    printing cell computes; numpy's routine, not code of the notebook.  The
    mean of no number is not a number. *)
Definition mean (a : list Q) : result Q :=
  match a with
  | [] => Raise ZeroDivisionError
  | _ :: _ => Ok (fold_right Qplus 0 a / inject_Z (Z.of_nat (length a)))
  end.

End Numpy.

(** ** Confidence intervals (notebook cell "5.4 Confidence Intervals") *)

Module CI.

(** The module-level names the function body reads.  [f1s] is bound by the
    plotting cell ([f1s, precisions, recalls = list(zip( *fprs))]); before
    that cell has run the name is unbound. *)
Record globals : Type := { f1s : option (list Q) }.

(** Calls into the percentile routine are logged, so that the number and
    the order of the calls a run makes can be stated. *)
Inductive call : Type := PercentileCall (a : list Q) (q : Q).

Definition M (A : Type) : Type := list call -> result A * list call.

Definition ret {A} (a : A) : M A := fun log => (Ok a, log).

Definition raise {A} (e : exn) : M A := fun log => (Raise e, log).

Definition mbind {A B} (m : M A) (k : A -> M B) : M B :=
  fun log =>
    match m log with
    | (Ok a, log') => k a log'
    | (Raise e, log') => (Raise e, log')
    end.

Notation "x <~ c1 ;; c2" := (mbind c1 (fun x => c2))
  (at level 61, c1 at next level, right associativity).

Section WithPercentile.

(** [np.percentile], as the notebook imports it. *)
Variable np_percentile : list Q -> Q -> result Q.

Definition lookup_f1s (g : globals) : M (list Q) :=
  match f1s g with
  | Some s => ret s
  | None => raise NameError
  end.

Definition call_percentile (a : list Q) (q : Q) : M Q :=
  fun log => (np_percentile a q, log ++ [PercentileCall a q]).

(** <<
def confidence_intervals(distribution, alpha=0.95):
    top_p = ((1.0-alpha)/2.0) * 100
    lower_limit = max(0.0, np.percentile(f1s, top_p))
    bottom_p = (alpha+((1.0-alpha)/2.0)) * 100
    upper_limit = min(1.0, np.percentile(f1s, bottom_p))
    return lower_limit, upper_limit
>> *)
Definition confidence_intervals (g : globals) (distribution : list Q)
    (alpha : Q) : M tuple :=
  let top_p := ((1 - alpha) / 2) * 100 in
  s <~ lookup_f1s g ;;
  p <~ call_percentile s top_p ;;
  let lower_limit := Py.max 0 p in
  let bottom_p := (alpha + ((1 - alpha) / 2)) * 100 in
  s' <~ lookup_f1s g ;;
  p' <~ call_percentile s' bottom_p ;;
  let upper_limit := Py.min 1 p' in
  ret [lower_limit; upper_limit].

(** The default of the keyword argument. *)
Definition alpha_default : Q := 95 # 100.

Definition confidence_intervals_default (g : globals) (distribution : list Q)
  : M tuple :=
  confidence_intervals g distribution alpha_default.

(** Running a call from an empty log. *)
Definition run {A} (m : M A) : result A * list call := m [].

(** The cell's own use of the function:
<<
lower_limit, upper_limit = confidence_intervals(f1s, 0.95)
print(f'F1-score estimate: {np.array(f1s).mean():.3f}, 95%CI: [...]')
>>
    The three numbers printed are the mean of [f1s], computed by the cell,
    and the two components of the returned tuple. *)
Definition report_cell (g : globals) : result (Q * Q * Q) :=
  match f1s g with
  | None => Raise NameError
  | Some s =>
      t <- fst (run (confidence_intervals g s (95 # 100))) ;;
      lu <- unpack2 t ;;
      m <- Numpy.mean s ;;
      Ok (m, fst lu, snd lu)
  end.

End WithPercentile.

End CI.

(** ** The data frame and [tasty_ratio] (notebook section 2) *)

Module Frame.

(** One row of [wine_quality.csv]: the feature columns and the [tasty]
    label column. *)
Record row : Type := { features : list Q; tasty : Z }.

Definition dataframe := list row.

(** <<
def tasty_ratio(df):
    n_tasty = df.loc[df['tasty'] == 1, 'tasty'].count()
    return n_tasty / len(df)
>>
    The quotient of a zero length is not a number: Python raises
    ZeroDivisionError (with a numpy integer numerator the quotient is nan
    and a warning); the model has [Raise ZeroDivisionError] for both. *)
Definition tasty_ratio (df : dataframe) : result Q :=
  let n_tasty := length (filter (fun r => (tasty r =? 1)%Z) df) in
  truediv n_tasty (length df).

(** <<
def to_features(df):
    X = df.drop(['tasty'], axis=1).values
    y = df['tasty'].values
    return X, y
>> *)
Definition to_features (df : dataframe) : list (list Q) * list Z :=
  (map features df, map tasty df).

End Frame.

(** ** sklearn.metrics and [evaluate] (notebook section 5.2) *)

Module Metrics.

(** The [zero_division] keyword: ["warn"] (the default) behaves as 0 and
    emits a warning; a number is returned as it is. *)
Inductive zero_division : Type :=
| ZD_warn
| ZD_value (v : Q).

Definition zero_division_value (zd : zero_division) : Q :=
  match zd with
  | ZD_warn => 0
  | ZD_value v => v
  end.

(** Counts over the paired labels, the positive label being 1. *)
Fixpoint count_pairs (p : Z -> Z -> bool) (y_true y_pred : list Z) : nat :=
  match y_true, y_pred with
  | t :: ts, q :: qs =>
      (if p t q then 1 else 0)%nat + count_pairs p ts qs
  | _, _ => O
  end.

Definition true_positives :=
  count_pairs (fun t q => (t =? 1)%Z && (q =? 1)%Z).
Definition false_positives :=
  count_pairs (fun t q => negb (t =? 1)%Z && (q =? 1)%Z).
Definition false_negatives :=
  count_pairs (fun t q => (t =? 1)%Z && negb (q =? 1)%Z).

Definition divide (num den : nat) (zd : zero_division) : Q :=
  match den with
  | O => zero_division_value zd
  | S _ => Z.of_nat num # Pos.of_nat den
  end.

Definition check_consistent_length (y_true y_pred : list Z) : result unit :=
  if (length y_true =? length y_pred)%nat then Ok tt else Raise ValueError.

(** Modelled from the spec: the three scores are scikit-learn's, not code
    of the notebook.  The spec's collaborator contract takes two
    equal-length label sequences and returns a scalar in [[0,1]]; the
    scores are the usual ratios of the confusion counts, with the
    [zero_division] policy deciding the value of a ratio whose denominator
    is zero.  Labels are those of the notebook's binary task (0 and 1, the
    positive label being 1); the library's checks on the kind of target
    are outside the model.  Precision is tp / (tp + fp). *)
Definition precision_score (y_true y_pred : list Z) (zd : zero_division)
  : result Q :=
  _ <- check_consistent_length y_true y_pred ;;
  let tp := true_positives y_true y_pred in
  let fp := false_positives y_true y_pred in
  Ok (divide tp (tp + fp) zd).

(** Modelled from the spec: recall, tp / (tp + fn), under the same
    contract. *)
Definition recall_score (y_true y_pred : list Z) (zd : zero_division)
  : result Q :=
  _ <- check_consistent_length y_true y_pred ;;
  let tp := true_positives y_true y_pred in
  let fn := false_negatives y_true y_pred in
  Ok (divide tp (tp + fn) zd).

(** Modelled from the spec: the F1 score, 2 tp / (2 tp + fp + fn), under
    the same contract. *)
Definition f1_score (y_true y_pred : list Z) (zd : zero_division)
  : result Q :=
  _ <- check_consistent_length y_true y_pred ;;
  let tp := true_positives y_true y_pred in
  let fp := false_positives y_true y_pred in
  let fn := false_negatives y_true y_pred in
  Ok (divide (2 * tp) (2 * tp + fp + fn) zd).

(** [FPR = namedtuple('FPR', ['f1', 'precision', 'recall'])] *)
Record FPR : Type := { f1 : Q; precision : Q; recall : Q }.

Section Evaluate.

Variable X : Type.

(** A fitted classifier is its [predict] method. *)
Definition classifier := list X -> list Z.

(** <<
def evaluate(clf, X_val, y_val):
    y_pred = clf.predict(X_val)
    p = precision_score(y_val, y_pred, zero_division=0)
    r = recall_score(y_val, y_pred)
    f1 = f1_score(y_val, y_pred)
    return FPR(f1=f1, precision=p, recall=r)
>> *)
Definition evaluate (clf : classifier) (X_val : list X) (y_val : list Z)
  : result FPR :=
  let y_pred := clf X_val in
  p <- precision_score y_val y_pred (ZD_value 0) ;;
  r <- recall_score y_val y_pred ZD_warn ;;
  f <- f1_score y_val y_pred ZD_warn ;;
  Ok {| f1 := f; precision := p; recall := r |}.

End Evaluate.

Arguments evaluate {X} clf X_val y_val.

End Metrics.

(** ** The bootstrap cell (notebook section 5.4) *)

Module Bootstrap.

Import Metrics.

Section Cell.

Variable X : Type.

(** [sklearn.utils.resample(X, y, random_state=s)]: with an integer
    [random_state] the outcome is a function of the arrays and of that
    integer: the two resampled arrays, or the exception the library raises
    on arguments it rejects (arrays of different lengths, a [random_state]
    it does not accept). *)
Variable resample : list X -> list Z -> Z -> result (list X * list Z).

(** [make_pipeline(StandardScaler(), RandomForestClassifier(random_state=s))
    .fit(X, y)]: the fitted pipeline, as its [predict], or the exception
    the library raises on training data it rejects. *)
Variable fit : Z -> list X -> list Z -> result (classifier X).

(** The names of the notebook the cell reads and writes. *)
Record notebook : Type := {
  X_train_val : list X;
  y_train_val : list Z;
  X_test : list X;
  y_test : list Z;
  fprs : list FPR
}.

Definition set_fprs (nb : notebook) (v : list FPR) : notebook :=
  {| X_train_val := X_train_val nb; y_train_val := y_train_val nb;
     X_test := X_test nb; y_test := y_test nb; fprs := v |}.

(** The [random_state] of iteration [i]: [seed + i]. *)
Definition iteration_seed (seed : Z) (i : nat) : Z := (seed + Z.of_nat i)%Z.

(** One pass through the loop body:
<<
    X_test_sample, y_test_sample = resample(X_test, y_test, random_state=seed + i)
    fpr = evaluate(pipe, X_test_sample, y_test_sample)
    fprs.append(fpr)
>> *)
Definition loop_body (seed : Z) (pipe : classifier X) (nb : notebook)
    (i : nat) : result notebook :=
  sample <- resample (X_test nb) (y_test nb) (iteration_seed seed i) ;;
  fpr <- evaluate pipe (fst sample) (snd sample) ;;
  Ok (set_fprs nb (fprs nb ++ [fpr])).

(** [for i in range(...)]: the body is run on each index in turn; an
    exception leaves the loop. *)
Fixpoint for_each (body : notebook -> nat -> result notebook)
    (indices : list nat) (nb : notebook) : result notebook :=
  match indices with
  | [] => Ok nb
  | i :: rest => nb' <- body nb i ;; for_each body rest nb'
  end.

(** The cell, with the number of resamples and the base seed as
    parameters:
<<
seed = 1337
pipe = make_pipeline(StandardScaler(), RandomForestClassifier(random_state=seed))
pipe = pipe.fit(X_train_val, y_train_val)
fprs = []
for i in range(100):
    ...
>> *)
Definition bootstrap (n_resamples : nat) (seed : Z) (nb : notebook)
  : result notebook :=
  pipe <- fit seed (X_train_val nb) (y_train_val nb) ;;
  let nb0 := set_fprs nb [] in
  for_each (loop_body seed pipe) (seq 0 n_resamples) nb0.

Definition bootstrap_cell (nb : notebook) : result notebook :=
  bootstrap 100 1337%Z nb.

(** The scores the cell leaves in [fprs]. *)
Definition bootstrap_scores (n_resamples : nat) (seed : Z) (nb : notebook)
  : result (list FPR) :=
  nb' <- bootstrap n_resamples seed nb ;; Ok (fprs nb').

(** The same scores, iteration by iteration. *)
Fixpoint map_result {A B} (f : A -> result B) (l : list A)
  : result (list B) :=
  match l with
  | [] => Ok []
  | a :: t => b <- f a ;; bs <- map_result f t ;; Ok (b :: bs)
  end.

Definition score_of_iteration (seed : Z) (pipe : classifier X)
    (nb : notebook) (i : nat) : result FPR :=
  sample <- resample (X_test nb) (y_test nb) (iteration_seed seed i) ;;
  evaluate pipe (fst sample) (snd sample).

(** Two notebooks agree on what the cell reads. *)
Definition same_inputs (nb1 nb2 : notebook) : Prop :=
  X_train_val nb1 = X_train_val nb2 /\ y_train_val nb1 = y_train_val nb2 /\
  X_test nb1 = X_test nb2 /\ y_test nb1 = y_test nb2.

End Cell.

End Bootstrap.

(** An instance of the two library routines to compute with: a resampling
    that rotates both arrays by the seed and rejects arrays of different
    lengths or without rows, and a fit that rejects such training data and
    otherwise returns a fixed rule on the first feature. *)

Module Toy.

Import Bootstrap.

Definition rotate {A} (k : nat) (l : list A) : list A :=
  skipn (k mod length l) l ++ firstn (k mod length l) l.

Definition resample (xs : list nat) (ys : list Z) (s : Z)
  : result (list nat * list Z) :=
  if (length xs =? length ys)%nat && negb (length xs =? 0)%nat
  then Ok (rotate (Z.to_nat s) xs, rotate (Z.to_nat s) ys)
  else Raise ValueError.

Definition fit (s : Z) (xs : list nat) (ys : list Z)
  : result (Metrics.classifier nat) :=
  if (length xs =? length ys)%nat && negb (length xs =? 0)%nat
  then Ok (fun rows => map (fun x => if (x <? 2)%nat then 1%Z else 0%Z) rows)
  else Raise ValueError.

Definition nb : notebook nat :=
  {| X_train_val := [0; 1; 2; 3]%nat; y_train_val := [1; 1; 0; 0]%Z;
     X_test := [1; 2; 3; 0]%nat; y_test := [1; 1; 0; 0]%Z; fprs := [] |}.

(** The same notebook with one test label missing. *)
Definition nb_short : notebook nat :=
  {| X_train_val := [0; 1; 2; 3]%nat; y_train_val := [1; 1; 0; 0]%Z;
     X_test := [1; 2; 3; 0]%nat; y_test := [1; 1; 0]%Z; fprs := [] |}.

End Toy.

(** ** The stratified splitter (notebook sections 2 and 5.3) *)

Module Splitter.

(** The notebook calls [train_test_split(..., stratify=...)] and
    [StratifiedKFold(...).split(...)]; both are scikit-learn's.  The
    definitions of this module follow the algorithms of the specification
    (section 4.1). *)

Inductive split_error : Type :=
| InvalidFractionError
| InsufficientDataError.

Inductive outcome (A : Type) : Type :=
| Done (a : A)
| Fail (e : split_error).

Arguments Done {A} a.
Arguments Fail {A} e.

(** A seeded shuffle of a list of indices: whatever the generator, the
    result is a rearrangement of its input. *)
Record shuffler : Type := {
  shuffle : Z -> list nat -> list nat;
  shuffle_perm : forall seed l, Permutation (shuffle seed l) l
}.

(** A shuffler to compute with: rotation by the seed. *)
Definition rotate (seed : Z) (l : list nat) : list nat :=
  let k := Z.to_nat (seed mod Z.max 1 (Z.of_nat (length l))) in
  skipn k l ++ firstn k l.

Definition rotate_perm (seed : Z) (l : list nat)
  : Permutation (rotate seed l) l :=
  let k := Z.to_nat (seed mod Z.max 1 (Z.of_nat (length l))) in
  eq_ind (firstn k l ++ skipn k l)
         (fun l' => Permutation (skipn k l ++ firstn k l) l')
         (Permutation_app_comm (skipn k l) (firstn k l))
         l (firstn_skipn k l).

Definition rotation : shuffler :=
  {| shuffle := rotate; shuffle_perm := rotate_perm |}.

(** Rounding to the nearest integer, ties to the even neighbour. *)
Definition round (x : Q) : Z :=
  let fl := Qfloor x in
  match Qcompare (x - inject_Z fl) (1 # 2) with
  | Lt => fl
  | Gt => (fl + 1)%Z
  | Eq => if Z.even fl then fl else (fl + 1)%Z
  end.

Section Split.

Variable sh : shuffler.

(** The finite set of classes the labels are drawn from. *)
Variable classes : list Z.

(** The label column: record [i] has label [nth i y]. *)
Definition indices (y : list Z) : list nat := seq 0 (length y).

Definition label_of (y : list Z) (i : nat) : Z := nth i y 0%Z.

(** "group record indices by class label" *)
Definition group (y : list Z) (c : Z) : list nat :=
  filter (fun i => (label_of y i =? c)%Z) (indices y).

Definition valid_fraction (f : Q) : bool := Qltb 0 f && Qltb f 1.

Definition every_class_present (y : list Z) : bool :=
  forallb (fun c => negb (length (group y c) =? 0)%nat) classes.

(** "for each class group, independently and randomly (seeded) select
    [round(test_fraction * group_size)] indices into the test partition,
    remainder into train" *)
Definition n_test (f : Q) (g : list nat) : nat :=
  Z.to_nat (round (f * inject_Z (Z.of_nat (length g)))).

Definition test_of_group (f : Q) (seed : Z) (g : list nat) : list nat :=
  firstn (n_test f g) (shuffle sh seed g).

Definition train_of_group (f : Q) (seed : Z) (g : list nat) : list nat :=
  skipn (n_test f g) (shuffle sh seed g).

(** Modelled from the spec: [stratified_split(dataset, test_fraction, seed)]
    stands for scikit-learn's [train_test_split(..., stratify=...)], which
    is not code of the notebook.  The fraction is checked first
    (InvalidFractionError), then that no class is without members
    (InsufficientDataError); the per-class selections are concatenated
    across classes. *)
Definition stratified_split (y : list Z) (test_fraction : Q) (seed : Z)
  : outcome (list nat * list nat) :=
  if negb (valid_fraction test_fraction) then Fail InvalidFractionError
  else if negb (every_class_present y) then Fail InsufficientDataError
  else
    let groups := map (group y) classes in
    Done (concat (map (train_of_group test_fraction seed) groups),
          concat (map (test_of_group test_fraction seed) groups)).

(** "partition that class's shuffled indices into k nearly-equal contiguous
    groups (sizes differ by at most 1)", "remainder distributed to the first
    [remainder] groups". *)
Definition fold_sizes (m k : nat) : list nat :=
  map (fun i => (m / k + (if i <? m mod k then 1 else 0))%nat) (seq 0 k).

Fixpoint chunks (sizes : list nat) (l : list nat) : list (list nat) :=
  match sizes with
  | [] => []
  | s :: rest => firstn s l :: chunks rest (skipn s l)
  end.

Definition class_folds (y : list Z) (k : nat) (seed : Z) (c : Z)
  : list (list nat) :=
  let g := shuffle sh seed (group y c) in
  chunks (fold_sizes (length g) k) g.

Definition every_class_has (y : list Z) (k : nat) : bool :=
  forallb (fun c => (k <=? length (group y c))%nat) classes.

(** "fold i's validation set is the union across classes of group i" *)
Definition validation_fold (y : list Z) (k : nat) (seed : Z) (i : nat)
  : list nat :=
  concat (map (fun c => nth i (class_folds y k seed c) []) classes).

(** "its training set is the union of all other groups" *)
Definition training_fold (y : list Z) (k : nat) (seed : Z) (i : nat)
  : list nat :=
  concat (map (validation_fold y k seed)
              (filter (fun j => negb (j =? i)%nat) (seq 0 k))).

(** Modelled from the spec: [stratified_kfold(dataset, k, seed)] stands for
    scikit-learn's [StratifiedKFold(n_splits=k, shuffle=True,
    random_state=seed).split], which is not code of the notebook.  The
    result is the sequence of the [k] pairs (train indices, validation
    indices). *)
Definition stratified_kfold (y : list Z) (k : nat) (seed : Z)
  : outcome (list (list nat * list nat)) :=
  if (k <? 2)%nat then Fail InsufficientDataError
  else if negb (every_class_has y k) then Fail InsufficientDataError
  else
    Done (map (fun i => (training_fold y k seed i, validation_fold y k seed i))
              (seq 0 k)).

(** [x in fold], as a test. *)
Definition in_fold (x : nat) (fold : list nat) : bool :=
  existsb (Nat.eqb x) fold.

(** The data-model invariant on labels: the classes are listed once each
    and every label is one of them. *)
Definition well_labelled (y : list Z) : bool :=
  forallb (fun l => existsb (Z.eqb l) classes) y &&
  forallb (fun c => (count_occ Z.eq_dec classes c =? 1)%nat) classes.

End Split.

End Splitter.

(** ** Class counts of a set of rows *)

Module ThreeWay.

Import Splitter.

(** How many of the given rows have the class [c]. *)
Definition count_class (y : list Z) (c : Z) (rows : list nat) : nat :=
  length (filter (fun i => (label_of y i =? c)%Z) rows).

End ThreeWay.

(** ** Arrays: sums and indexing by an array of positions *)

Module Arrays.

(** [y.sum()] of an integer array. *)
Definition np_sum (y : list Z) : Z := fold_right Z.add 0%Z y.

(** [a[indices]] with an array of (non-negative) positions: the selected
    elements, in the order of the positions; a position past the end is an
    IndexError. *)
Fixpoint take {A} (a : list A) (positions : list nat) : result (list A) :=
  match positions with
  | [] => Ok []
  | i :: rest =>
      match nth_error a i with
      | None => Raise IndexError
      | Some v => vs <- take a rest ;; Ok (v :: vs)
      end
  end.

End Arrays.

(** ** The cross-validation loops (notebook section 5.3) *)

Module Folds.

Import Arrays.

(** What one pass of the loop prints. *)
Record fold_line : Type := {
  train_size : nat;
  val_size : nat;
  val_positives : Z
}.

Section Loop.

Variable X : Type.

(** The body of both loops ([KFold] and [StratifiedKFold]):
<<
    X_train, y_train = X_train_val[train_indices], y_train_val[train_indices]
    X_val, y_val = X_train_val[val_indices], y_train_val[val_indices]
    print(f'train set size: {len(X_train)}, val set size: {len(X_val)}, val positives count: {y_val.sum()}')
>> *)
Definition fold_body (X_train_val : list X) (y_train_val : list Z)
    (fold : list nat * list nat) : result fold_line :=
  let train_indices := fst fold in
  let val_indices := snd fold in
  X_train <- take X_train_val train_indices ;;
  y_train <- take y_train_val train_indices ;;
  X_val <- take X_train_val val_indices ;;
  y_val <- take y_train_val val_indices ;;
  Ok {| train_size := length X_train; val_size := length X_val;
        val_positives := np_sum y_val |}.

(** [for train_indices, val_indices in splitter.split(X_train_val,
    y_train_val)]: the pairs the splitter yields are visited in turn; the
    lines printed so far stay printed when a pass raises. *)
Fixpoint fold_loop (X_train_val : list X) (y_train_val : list Z)
    (folds : list (list nat * list nat)) (printed : list fold_line)
  : list fold_line * option exn :=
  match folds with
  | [] => (printed, None)
  | fold :: rest =>
      match fold_body X_train_val y_train_val fold with
      | Ok line => fold_loop X_train_val y_train_val rest (printed ++ [line])
      | Raise e => (printed, Some e)
      end
  end.

End Loop.

(** The line printed for a fold whose positions are all in range: the
    sizes of its two parts and the sum of the labels at its validation
    positions. *)
Definition line_of (y_train_val : list Z) (fold : list nat * list nat)
  : fold_line :=
  {| train_size := length (fst fold);
     val_size := length (snd fold);
     val_positives :=
       np_sum (map (fun i => nth i y_train_val 0%Z) (snd fold)) |}.

Arguments fold_body {X} X_train_val y_train_val fold.
Arguments fold_loop {X} X_train_val y_train_val folds printed.

End Folds.

(** ** From the bootstrap scores to the printed estimate *)

Module Scores.

Import Metrics.

(** A namedtuple is a tuple: its fields in the order of their declaration,
    [FPR = namedtuple('FPR', ['f1', 'precision', 'recall'])]. *)
Definition astuple (r : FPR) : tuple := [f1 r; precision r; recall r].

(** [zip( *rows)]: the tuple of the first components, the tuple of the
    second components, and so on, until the shortest row is exhausted; no
    row at all gives nothing. *)
Definition zip_star (rows : list tuple) : list tuple :=
  match rows with
  | [] => []
  | r :: rs =>
      let shortest := fold_right Nat.min (length r) (map (@length Q) rs) in
      map (fun j => map (fun row => nth j row 0) rows) (seq 0 shortest)
  end.

(** [a, b, c = l] *)
Definition unpack3 {A} (l : list A) : result (A * A * A) :=
  match l with
  | [a; b; c] => Ok (a, b, c)
  | _ => Raise ValueError
  end.

(** [f1s, precisions, recalls = list(zip( *fprs))] *)
Definition split_scores (fprs : list FPR) : result (tuple * tuple * tuple) :=
  unpack3 (zip_star (map astuple fprs)).

Section WithPercentile.

Variable np_percentile : list Q -> Q -> result Q.

(** The plotting cell followed by the printing cell: [f1s] is bound from
    [fprs], then the estimate and its interval are computed from [f1s]. *)
Definition estimate (fprs : list FPR) : result (Q * Q * Q) :=
  names <- split_scores fprs ;;
  let f1s := fst (fst names) in
  CI.report_cell np_percentile {| CI.f1s := Some f1s |}.

End WithPercentile.

(** The last cell:
<<
print(f'... f1-score: {np.array(f1s).mean():.3f}, precision:
{np.array(precisions).mean():.3f}, recall: {np.array(recalls).mean():.3f}')
>> *)
Definition final_metrics (fprs : list FPR) : result FPR :=
  names <- split_scores fprs ;;
  f <- Numpy.mean (fst (fst names)) ;;
  p <- Numpy.mean (snd (fst names)) ;;
  r <- Numpy.mean (snd names) ;;
  Ok {| f1 := f; precision := p; recall := r |}.

(** Two outcomes of an interval computation that agree: the same
    exception, or bounds that are equal as numbers. *)
Definition same_bounds (r r' : result tuple) : Prop :=
  match r, r' with
  | Ok t, Ok t' => Forall2 Qeq t t'
  | Raise e, Raise e' => e = e'
  | _, _ => False
  end.

(** The same for one percentile. *)
Definition same_value (r r' : result Q) : Prop :=
  match r, r' with
  | Ok p, Ok p' => p == p'
  | Raise e, Raise e' => e = e'
  | _, _ => False
  end.

(** All the scores of a sequence lie in the unit interval. *)
Definition unit_scores (l : list Q) : Prop :=
  Forall (fun q => 0 <= q /\ q <= 1) l.

Definition unit_fpr (r : FPR) : Prop :=
  (0 <= f1 r /\ f1 r <= 1) /\
  (0 <= precision r /\ precision r <= 1) /\
  (0 <= recall r /\ recall r <= 1).

End Scores.

(** * Properties *)

(** ** Order statistics and interpolation *)

Module NumpyFacts.

Import Numpy.

Lemma insert_length (x : Q) (l : list Q) :
  length (insert x l) = S (length l).
Proof.
  induction l as [|y t IH]; simpl; [reflexivity|].
  destruct (Qle_bool x y); simpl; [reflexivity | now rewrite IH].
Qed.

Lemma sort_length (l : list Q) : length (sort l) = length l.
Proof.
  induction l as [|x t IH]; simpl; [reflexivity|].
  now rewrite insert_length, IH.
Qed.

Lemma insert_Forall (P : Q -> Prop) (x : Q) (l : list Q) :
  P x -> Forall P l -> Forall P (insert x l).
Proof.
  intros Hx Hl. induction Hl as [|y t Hy Ht IH]; simpl.
  - constructor; [assumption | constructor].
  - destruct (Qle_bool x y); repeat constructor; assumption.
Qed.

Lemma insert_sorted (x : Q) (l : list Q) :
  StronglySorted Qle l -> StronglySorted Qle (insert x l).
Proof.
  induction 1 as [|y t Hs IH Hall]; simpl.
  - repeat constructor.
  - destruct (Qle_bool x y) eqn:E.
    + apply Qle_bool_iff in E.
      constructor; [constructor; assumption|].
      constructor; [assumption|].
      eapply Forall_impl; [|exact Hall].
      intros z Hz. eapply Qle_trans; eassumption.
    + assert (y <= x) as Hyx.
      { destruct (Qlt_le_dec y x) as [Hlt|Hle]; [now apply Qlt_le_weak|].
        apply Qle_bool_iff in Hle. congruence. }
      constructor; [assumption|].
      apply insert_Forall; assumption.
Qed.

Lemma sort_sorted (l : list Q) : StronglySorted Qle (sort l).
Proof.
  induction l as [|x t IH]; simpl; [constructor | now apply insert_sorted].
Qed.

Lemma sorted_nth (l : list Q) :
  StronglySorted Qle l ->
  forall i j, (i <= j < length l)%nat -> nth i l 0 <= nth j l 0.
Proof.
  induction 1 as [|x t Hs IH Hall]; intros i j Hij; simpl in *; [lia|].
  destruct i as [|i], j as [|j]; try lia.
  - apply Qle_refl.
  - rewrite Forall_forall in Hall. apply Hall, nth_In. lia.
  - apply IH. lia.
Qed.

Lemma lerp_lower (a b t : Q) : a <= b -> 0 <= t -> a <= lerp a b t.
Proof.
  intros Hab Ht. unfold lerp.
  assert (0 <= (b - a) * t) by (apply Qmult_le_0_compat; lra).
  lra.
Qed.

Lemma lerp_upper (a b t : Q) : a <= b -> t <= 1 -> lerp a b t <= b.
Proof.
  intros Hab Ht. unfold lerp.
  assert (0 <= (b - a) * (1 - t)) by (apply Qmult_le_0_compat; lra).
  lra.
Qed.

Lemma lerp_mono (a b t u : Q) : a <= b -> t <= u -> lerp a b t <= lerp a b u.
Proof.
  intros Hab Htu. unfold lerp.
  assert (0 <= (b - a) * (u - t)) by (apply Qmult_le_0_compat; lra).
  lra.
Qed.

Lemma floor_bounds (h : Q) :
  inject_Z (Qfloor h) <= h /\ h < inject_Z (Qfloor h) + 1.
Proof.
  split; [apply Qfloor_le|].
  generalize (Qlt_floor h). rewrite inject_Z_plus. simpl. tauto.
Qed.

Lemma floor_range (h : Q) (m : Z) :
  0 <= h -> h <= inject_Z m -> (0 <= Qfloor h <= m)%Z.
Proof.
  intros H0 Hm. destruct (floor_bounds h) as [Hlo Hhi]. split.
  - assert (inject_Z (-1) < inject_Z (Qfloor h)) as H.
    { change (inject_Z (-1)) with (-(1)). lra. }
    rewrite <- Zlt_Qlt in H. lia.
  - assert (inject_Z (Qfloor h) <= inject_Z m) as H by lra.
    rewrite <- Zle_Qle in H. exact H.
Qed.

(** Interpolation over a sorted array is monotone in the virtual index. *)
Lemma interpolate_mono (arr : list Q) (h1 h2 : Q) :
  StronglySorted Qle arr ->
  0 <= h1 -> h1 <= h2 -> h2 <= inject_Z (Z.of_nat (length arr) - 1) ->
  interpolate arr h1 <= interpolate arr h2.
Proof.
  intros Hs H0 H12 Hn. unfold interpolate.
  set (n := Z.of_nat (length arr)) in *.
  destruct (floor_bounds h1) as [L1 U1], (floor_bounds h2) as [L2 U2].
  assert (0 <= Qfloor h1 <= n - 1)%Z as R1 by (apply floor_range; lra).
  assert (0 <= Qfloor h2 <= n - 1)%Z as R2 by (apply floor_range; lra).
  assert (Qfloor h1 <= Qfloor h2)%Z as Hfl by (apply Qfloor_resp_le; exact H12).
  set (i1 := Qfloor h1) in *. set (i2 := Qfloor h2) in *.
  assert (forall i, (0 <= i <= n - 1)%Z ->
            nth (Z.to_nat i) arr 0
            <= nth (Z.to_nat (Z.min (i + 1) (n - 1))) arr 0) as Hstep.
  { intros i Hi. apply sorted_nth; [exact Hs | subst n; lia]. }
  destruct (Z.eq_dec i1 i2) as [E|NE].
  - rewrite <- E in *. apply lerp_mono; [apply Hstep; exact R1 | lra].
  - apply Qle_trans with (nth (Z.to_nat (Z.min (i1 + 1) (n - 1))) arr 0).
    { apply lerp_upper; [apply Hstep; exact R1 | lra]. }
    apply Qle_trans with (nth (Z.to_nat i2) arr 0).
    { apply sorted_nth; [exact Hs | subst n; lia]. }
    apply lerp_lower; [apply Hstep; exact R2 | lra].
Qed.

Lemma percentile_in_range (q : Q) :
  0 <= q -> q <= 100 -> negb (Qle_bool 0 q && Qle_bool q 100) = false.
Proof.
  intros H0 H1. apply Qle_bool_iff in H0, H1. now rewrite H0, H1.
Qed.

(** On a non-empty array and a percentile in range the routine returns. *)
Lemma percentile_ok (a : list Q) (q : Q) :
  a <> [] -> 0 <= q -> q <= 100 ->
  percentile a q =
  Ok (interpolate (sort a)
        (inject_Z (Z.of_nat (length (sort a)) - 1) * (q / 100))).
Proof.
  intros Ha H0 H1. unfold percentile.
  rewrite percentile_in_range by assumption.
  destruct a; [congruence | reflexivity].
Qed.

Lemma div_100 (q : Q) : q / 100 == q * (1 # 100).
Proof. reflexivity. Qed.

Lemma virtual_index_bounds (n : Z) (q : Q) :
  (1 <= n)%Z -> 0 <= q -> q <= 100 ->
  0 <= inject_Z (n - 1) * (q / 100) /\
  inject_Z (n - 1) * (q / 100) <= inject_Z (n - 1).
Proof.
  intros Hn H0 H1.
  assert (0 <= inject_Z (n - 1)) as Hm.
  { change 0 with (inject_Z 0). rewrite <- Zle_Qle. lia. }
  assert (0 <= q / 100 /\ q / 100 <= 1) as [Ha Hb].
  { rewrite div_100. split; lra. }
  split.
  - apply Qmult_le_0_compat; assumption.
  - assert (0 <= inject_Z (n - 1) * (1 - q / 100))
      by (apply Qmult_le_0_compat; lra).
    lra.
Qed.

(** The percentile of a fixed non-empty array is monotone in [q]. *)
Lemma percentile_mono (a : list Q) (q1 q2 : Q) :
  a <> [] -> 0 <= q1 -> q1 <= q2 -> q2 <= 100 ->
  exists p1 p2,
    percentile a q1 = Ok p1 /\ percentile a q2 = Ok p2 /\ p1 <= p2.
Proof.
  intros Ha H0 H12 H1.
  rewrite !percentile_ok by (assumption || lra).
  do 2 eexists. split; [reflexivity|]. split; [reflexivity|].
  assert (1 <= Z.of_nat (length (sort a)))%Z as Hn.
  { rewrite sort_length. destruct a; [congruence | simpl; lia]. }
  destruct (virtual_index_bounds _ q1 Hn) as [A1 B1]; [lra | lra |].
  destruct (virtual_index_bounds _ q2 Hn) as [A2 B2]; [lra | lra |].
  apply interpolate_mono; [apply sort_sorted | assumption | | assumption].
  assert (0 <= inject_Z (Z.of_nat (length (sort a)) - 1)) as Hm.
  { change 0 with (inject_Z 0). rewrite <- Zle_Qle. lia. }
  assert (0 <= inject_Z (Z.of_nat (length (sort a)) - 1)
               * (q2 / 100 - q1 / 100)).
  { apply Qmult_le_0_compat; [assumption | rewrite !div_100; lra]. }
  lra.
Qed.

End NumpyFacts.

(** ** Confidence intervals *)

Module CIFacts.

Import Numpy NumpyFacts CI.

Lemma top_p_eq (alpha : Q) : ((1 - alpha) / 2) * 100 == 50 - 50 * alpha.
Proof. field. Qed.

Lemma bottom_p_eq (alpha : Q) :
  (alpha + ((1 - alpha) / 2)) * 100 == 50 + 50 * alpha.
Proof. field. Qed.

Lemma max_mono (a b : Q) : a <= b -> Py.max 0 a <= Py.max 0 b.
Proof.
  intros Hab. unfold Py.max, Qltb.
  destruct (Qle_bool a 0) eqn:Ea, (Qle_bool b 0) eqn:Eb; simpl;
    try apply Qle_bool_iff in Ea; try apply Qle_bool_iff in Eb;
    try lra.
  destruct (Qlt_le_dec 0 b) as [H|H]; [lra|].
  apply Qle_bool_iff in H. congruence.
Qed.

Lemma min_mono (a b : Q) : a <= b -> Py.min 1 a <= Py.min 1 b.
Proof.
  intros Hab. unfold Py.min, Qltb.
  destruct (Qle_bool 1 a) eqn:Ea, (Qle_bool 1 b) eqn:Eb; simpl;
    try apply Qle_bool_iff in Ea; try apply Qle_bool_iff in Eb;
    try lra.
  destruct (Qlt_le_dec a 1) as [H|H]; [lra|].
  apply Qle_bool_iff in H. congruence.
Qed.

(** One run of the function, call by call. *)
Lemma run_confidence_intervals (P : list Q -> Q -> result Q)
    (s d : list Q) (alpha : Q) :
  run (confidence_intervals P {| f1s := Some s |} d alpha) =
  let top := ((1 - alpha) / 2) * 100 in
  let bottom := (alpha + ((1 - alpha) / 2)) * 100 in
  match P s top with
  | Raise e => (Raise e, [PercentileCall s top])
  | Ok p =>
      match P s bottom with
      | Raise e => (Raise e, [PercentileCall s top; PercentileCall s bottom])
      | Ok p' => (Ok [Py.max 0 p; Py.min 1 p'],
                  [PercentileCall s top; PercentileCall s bottom])
      end
  end.
Proof.
  unfold run, confidence_intervals, mbind, lookup_f1s, call_percentile, ret.
  simpl. destruct (P s _); [|reflexivity].
  destruct (P s _); reflexivity.
Qed.

Lemma run_confidence_intervals_unbound (P : list Q -> Q -> result Q)
    (d : list Q) (alpha : Q) :
  run (confidence_intervals P {| f1s := None |} d alpha) = (Raise NameError, []).
Proof. reflexivity. Qed.

(** The two percentiles of a level in (0,1) are in range and ordered. *)
Lemma levels_in_range (alpha : Q) :
  0 < alpha -> alpha < 1 ->
  0 <= ((1 - alpha) / 2) * 100 /\ ((1 - alpha) / 2) * 100 <= 100 /\
  0 <= (alpha + ((1 - alpha) / 2)) * 100 /\
  (alpha + ((1 - alpha) / 2)) * 100 <= 100.
Proof.
  intros H0 H1. rewrite top_p_eq, bottom_p_eq. repeat split; lra.
Qed.

(** With numpy's percentile, a call on a non-empty [f1s] and a level in
    (0,1) returns the two clamped percentiles. *)
Lemma confidence_intervals_returns (s d : list Q) (alpha : Q) :
  s <> [] -> 0 < alpha -> alpha < 1 ->
  exists p p',
    percentile s (((1 - alpha) / 2) * 100) = Ok p /\
    percentile s ((alpha + ((1 - alpha) / 2)) * 100) = Ok p' /\
    fst (run (confidence_intervals percentile {| f1s := Some s |} d alpha))
    = Ok [Py.max 0 p; Py.min 1 p'].
Proof.
  intros Hs H0 H1.
  destruct (levels_in_range alpha H0 H1) as (A & B & C & D).
  rewrite run_confidence_intervals. simpl.
  rewrite !percentile_ok by assumption.
  do 2 eexists. repeat split; reflexivity.
Qed.

(** C9.  The result of [confidence_intervals] does not depend on its
    [distribution] argument: two calls with the same binding of the
    module-level [f1s] and the same [alpha] give the same result (and make
    the same percentile calls), whatever sequences are passed. *)
Theorem confidence_intervals_ignores_argument
    (P : list Q -> Q -> result Q) (g1 g2 : globals) (d1 d2 : list Q)
    (alpha : Q) :
  f1s g1 = f1s g2 ->
  run (confidence_intervals P g1 d1 alpha)
  = run (confidence_intervals P g2 d2 alpha).
Proof.
  destruct g1 as [s1], g2 as [s2]. simpl. intros ->.
  destruct s2 as [s|].
  - now rewrite !run_confidence_intervals.
  - reflexivity.
Qed.

Lemma confidence_intervals_ignores_argument_witness :
  run (confidence_intervals percentile {| f1s := Some [1 # 2] |} []
         (95 # 100))
  = run (confidence_intervals percentile {| f1s := Some [1 # 2] |}
           [1 # 5; 3 # 10] (95 # 100)).
Proof.
  apply (confidence_intervals_ignores_argument percentile
           {| f1s := Some [1 # 2] |} {| f1s := Some [1 # 2] |}).
  reflexivity.
Defined.

(** C1.  With [f1s] bound to the one score 1/2, the call
    [confidence_intervals([1/5], 0.95)] returns the bounds (1/2, 1/2): the
    percentiles of [f1s].  The 2.5th and 97.5th percentiles of the sequence
    that was passed are both 1/5. *)
Theorem confidence_intervals_percentiles_of_f1s :
  let g := {| f1s := Some [1 # 2] |} in
  let distribution := [1 # 5] in
  let alpha := 95 # 100 in
  (exists lo hi,
      fst (run (confidence_intervals percentile g distribution alpha))
      = Ok [lo; hi] /\ lo == 1 # 2 /\ hi == 1 # 2) /\
  (exists p p',
      percentile distribution (((1 - alpha) / 2) * 100) = Ok p /\
      percentile distribution ((alpha + ((1 - alpha) / 2)) * 100) = Ok p' /\
      Py.max 0 p == 1 # 5 /\ Py.min 1 p' == 1 # 5).
Proof.
  split.
  - do 2 eexists. split; [vm_compute; reflexivity|]. split; reflexivity.
  - do 2 eexists. split; [vm_compute; reflexivity|].
    split; [vm_compute; reflexivity|]. split; reflexivity.
Qed.

(** C5.  For a fixed non-empty sequence of scores the interval is
    non-decreasing in the confidence level: for levels
    [0 < alpha1 <= alpha2 < 1] both calls return, and the interval at
    [alpha2] contains the interval at [alpha1].  (The scores are the
    sequence the function reads, [f1s]; the notebook passes that same
    sequence as the argument.) *)
Theorem interval_widens_with_confidence
    (scores d : list Q) (alpha1 alpha2 : Q) :
  scores <> [] -> 0 < alpha1 -> alpha1 <= alpha2 -> alpha2 < 1 ->
  exists lo1 hi1 lo2 hi2,
    fst (run (confidence_intervals percentile {| f1s := Some scores |} d
                alpha1)) = Ok [lo1; hi1] /\
    fst (run (confidence_intervals percentile {| f1s := Some scores |} d
                alpha2)) = Ok [lo2; hi2] /\
    lo2 <= lo1 /\ hi1 <= hi2.
Proof.
  intros Hs H0 H12 H1.
  destruct (levels_in_range alpha1) as (A1 & B1 & C1 & D1); [lra | lra |].
  destruct (levels_in_range alpha2) as (A2 & B2 & C2 & D2); [lra | lra |].
  destruct (percentile_mono scores
              (((1 - alpha2) / 2) * 100) (((1 - alpha1) / 2) * 100))
    as (t2 & t1 & Et2 & Et1 & Ht); try assumption.
  { rewrite !top_p_eq. lra. }
  destruct (percentile_mono scores
              ((alpha1 + ((1 - alpha1) / 2)) * 100)
              ((alpha2 + ((1 - alpha2) / 2)) * 100))
    as (b1 & b2 & Eb1 & Eb2 & Hb); try assumption.
  { rewrite !bottom_p_eq. lra. }
  exists (Py.max 0 t1), (Py.min 1 b1), (Py.max 0 t2), (Py.min 1 b2).
  rewrite !run_confidence_intervals. simpl.
  rewrite Et1, Et2, Eb1, Eb2. simpl.
  repeat split; [now apply max_mono | now apply min_mono].
Qed.

Lemma interval_widens_with_confidence_witness :
  exists lo1 hi1 lo2 hi2,
    fst (run (confidence_intervals percentile
                {| f1s := Some [2 # 5; 9 # 20; 1 # 2; 11 # 20; 3 # 5] |}
                [2 # 5; 9 # 20; 1 # 2; 11 # 20; 3 # 5] (1 # 2)))
    = Ok [lo1; hi1] /\
    fst (run (confidence_intervals percentile
                {| f1s := Some [2 # 5; 9 # 20; 1 # 2; 11 # 20; 3 # 5] |}
                [2 # 5; 9 # 20; 1 # 2; 11 # 20; 3 # 5] (99 # 100)))
    = Ok [lo2; hi2] /\
    lo2 <= lo1 /\ hi1 <= hi2.
Proof.
  apply (interval_widens_with_confidence
           [2 # 5; 9 # 20; 1 # 2; 11 # 20; 3 # 5]
           [2 # 5; 9 # 20; 1 # 2; 11 # 20; 3 # 5] (1 # 2) (99 # 100)).
  - discriminate.
  - reflexivity.
  - unfold Qle; simpl; lia.
  - reflexivity.
Defined.

(** The printing cell: the mean is computed by the cell from [f1s]; the two
    bounds come from the returned tuple. *)
Lemma report_cell_prints (scores : list Q) :
  scores <> [] ->
  exists m p p',
    mean scores = Ok m /\
    percentile scores (((1 - (95 # 100)) / 2) * 100) = Ok p /\
    percentile scores (((95 # 100) + ((1 - (95 # 100)) / 2)) * 100) = Ok p' /\
    report_cell percentile {| f1s := Some scores |}
    = Ok (m, Py.max 0 p, Py.min 1 p').
Proof.
  intros Hs.
  destruct (confidence_intervals_returns scores scores (95 # 100))
    as (p & p' & Ep & Ep' & Hrun); [assumption | reflexivity | reflexivity |].
  destruct scores as [|x t]; [congruence|].
  eexists. exists p, p'. split; [reflexivity|].
  split; [exact Ep|]. split; [exact Ep'|].
  unfold report_cell. cbn [f1s]. rewrite Hrun. reflexivity.
Qed.

(** C6 fails as stated: with [f1s] bound to the one score 1/2, the value
    returned by [confidence_intervals(f1s, 0.95)] is not a tuple of three
    components. *)
Lemma confidence_intervals_not_a_triple :
  ~ exists m lo hi,
      fst (run (confidence_intervals percentile {| f1s := Some [1 # 2] |}
                  [1 # 2] (95 # 100)))
      = Ok [m; lo; hi].
Proof.
  intros (m & lo & hi & H). vm_compute in H. congruence.
Qed.

(** C6, amended.  For a non-empty sequence of scores (bound to [f1s] and
    passed as the argument, as the notebook does) and a level in (0,1),
    [confidence_intervals] returns a tuple of exactly two components,
    (lower, upper): the clamped percentiles.  The caller's two-name
    unpacking accepts it.  The mean is not part of the returned value. *)
Theorem confidence_intervals_returns_pair (scores : list Q) (alpha : Q) :
  scores <> [] -> 0 < alpha -> alpha < 1 ->
  exists p p' t,
    percentile scores (((1 - alpha) / 2) * 100) = Ok p /\
    percentile scores ((alpha + ((1 - alpha) / 2)) * 100) = Ok p' /\
    fst (run (confidence_intervals percentile {| f1s := Some scores |}
                scores alpha)) = Ok t /\
    t = [Py.max 0 p; Py.min 1 p'] /\
    length t = 2%nat /\
    unpack2 t = Ok (Py.max 0 p, Py.min 1 p').
Proof.
  intros Hs H0 H1.
  destruct (confidence_intervals_returns scores scores alpha Hs H0 H1)
    as (p & p' & Ep & Ep' & Hrun).
  exists p, p', [Py.max 0 p; Py.min 1 p'].
  repeat split; assumption.
Qed.

Lemma confidence_intervals_returns_pair_witness :
  exists p p' t,
    percentile [1 # 2; 3 # 5] (((1 - (95 # 100)) / 2) * 100) = Ok p /\
    percentile [1 # 2; 3 # 5] (((95 # 100) + ((1 - (95 # 100)) / 2)) * 100)
    = Ok p' /\
    fst (run (confidence_intervals percentile
                {| f1s := Some [1 # 2; 3 # 5] |} [1 # 2; 3 # 5] (95 # 100)))
    = Ok t /\
    t = [Py.max 0 p; Py.min 1 p'] /\
    length t = 2%nat /\
    unpack2 t = Ok (Py.max 0 p, Py.min 1 p').
Proof.
  apply (confidence_intervals_returns_pair [1 # 2; 3 # 5] (95 # 100)).
  - discriminate.
  - reflexivity.
  - reflexivity.
Defined.

(** C7.  An empty score sequence passed to [confidence_intervals] is not
    reported when the module-level [f1s] holds scores: with [f1s] bound to
    the one score 1/2, the call [confidence_intervals([], 0.95)] makes both
    percentile calls and returns the tuple (1/2, 1/2).  When the empty
    sequence is what [f1s] holds, as in the notebook's own call, the first
    percentile call raises for every argument and every level: one error,
    no further call, no tuple; at the level 0.95 the error is IndexError. *)
Theorem empty_scores_passed_unreported :
  (exists lo hi,
     fst (run (confidence_intervals percentile {| f1s := Some [1 # 2] |}
                 [] (95 # 100))) = Ok [lo; hi] /\
     lo == 1 # 2 /\ hi == 1 # 2 /\
     length (snd (run (confidence_intervals percentile
                         {| f1s := Some [1 # 2] |} [] (95 # 100)))) = 2%nat) /\
  (forall (d : list Q) (alpha : Q), exists e,
     run (confidence_intervals percentile {| f1s := Some [] |} d alpha)
     = (Raise e, [PercentileCall [] (((1 - alpha) / 2) * 100)])) /\
  run (confidence_intervals percentile {| f1s := Some [] |} [] (95 # 100))
  = (Raise IndexError,
     [PercentileCall [] (((1 - (95 # 100)) / 2) * 100)]).
Proof.
  split; [|split].
  - do 2 eexists. split; [vm_compute; reflexivity|].
    split; [reflexivity|]. split; reflexivity.
  - intros d alpha. rewrite run_confidence_intervals. cbv zeta.
    unfold percentile.
    destruct (negb _); eexists; reflexivity.
  - rewrite run_confidence_intervals. reflexivity.
Qed.

End CIFacts.

(** ** The class ratio *)

Module FrameFacts.

Import Frame.

Lemma truediv_unit (n d : nat) :
  (n <= d)%nat -> (0 < d)%nat ->
  exists r, truediv n d = Ok r /\ 0 <= r /\ r <= 1.
Proof.
  intros Hnd Hd. destruct d as [|d]; [lia|].
  eexists. split; [reflexivity|].
  unfold Qle. cbn [Qnum Qden]. split; lia.
Qed.

Lemma truediv_zero (n d : nat) :
  truediv n d = Raise ZeroDivisionError <-> d = O.
Proof.
  destruct d; simpl; split; intros H; try reflexivity; discriminate.
Qed.

(** C10.  [tasty_ratio] divides the count of rows with [tasty == 1] by the
    number of rows, with no guard: on a non-empty frame the result is a
    number between 0 and 1 inclusive, and the division by zero happens
    exactly on the empty frame. *)
Theorem tasty_ratio_unit_interval (df : dataframe) :
  tasty_ratio df
  = truediv (length (filter (fun r => (tasty r =? 1)%Z) df)) (length df) /\
  (df <> [] -> exists r, tasty_ratio df = Ok r /\ 0 <= r /\ r <= 1) /\
  (tasty_ratio df = Raise ZeroDivisionError <-> df = []).
Proof.
  split; [reflexivity|]. split.
  - intros Hne. apply truediv_unit.
    + apply filter_length_le.
    + destruct df; [congruence | simpl; lia].
  - unfold tasty_ratio. rewrite truediv_zero. apply length_zero_iff_nil.
Qed.

Lemma tasty_ratio_unit_interval_witness :
  exists r,
    tasty_ratio [ {| features := [1 # 2]; tasty := 1 |};
                  {| features := [1 # 3]; tasty := 0 |};
                  {| features := [1 # 4]; tasty := 0 |} ] = Ok r /\
    0 <= r /\ r <= 1.
Proof.
  apply (tasty_ratio_unit_interval
           [ {| features := [1 # 2]; tasty := 1 |};
             {| features := [1 # 3]; tasty := 0 |};
             {| features := [1 # 4]; tasty := 0 |} ]).
  discriminate.
Defined.

End FrameFacts.

(** ** The scores of [evaluate] *)

Module MetricsFacts.

Import Metrics.

(** A count that requires a predicted positive is zero when no prediction
    is positive. *)
Lemma count_pairs_no_positive (p : Z -> Z -> bool) (y_true y_pred : list Z) :
  (forall t q, q <> 1%Z -> p t q = false) ->
  Forall (fun q => q <> 1%Z) y_pred ->
  count_pairs p y_true y_pred = O.
Proof.
  intros Hp Hall. revert y_true.
  induction Hall as [|q qs Hq Hqs IH]; intros [|t ts]; simpl; try reflexivity.
  now rewrite (Hp t q Hq), IH.
Qed.

Lemma true_positives_none (y_true y_pred : list Z) :
  Forall (fun q => q <> 1%Z) y_pred -> true_positives y_true y_pred = O.
Proof.
  apply count_pairs_no_positive. intros t q Hq.
  apply Z.eqb_neq in Hq. rewrite Hq. apply andb_false_r.
Qed.

Lemma false_positives_none (y_true y_pred : list Z) :
  Forall (fun q => q <> 1%Z) y_pred -> false_positives y_true y_pred = O.
Proof.
  apply count_pairs_no_positive. intros t q Hq.
  apply Z.eqb_neq in Hq. rewrite Hq. apply andb_false_r.
Qed.

Lemma divide_zero (den : nat) (zd : zero_division) :
  zero_division_value zd == 0 -> divide 0 den zd == 0.
Proof.
  intros Hzd. destruct den; simpl; [exact Hzd | reflexivity].
Qed.

Lemma check_consistent_length_ok (y_true y_pred : list Z) :
  length y_true = length y_pred ->
  check_consistent_length y_true y_pred = Ok tt.
Proof.
  intros H. unfold check_consistent_length.
  now rewrite H, Nat.eqb_refl.
Qed.

(** C8.  When the predictions have the length of the ground truth and
    contain no positive label, [evaluate] raises nothing and each of its
    three scores (f1, precision, recall) is 0. *)
Theorem evaluate_no_predicted_positive
    (X : Type) (clf : classifier X) (X_val : list X) (y_val : list Z) :
  length y_val = length (clf X_val) ->
  Forall (fun q => q <> 1%Z) (clf X_val) ->
  exists r,
    evaluate clf X_val y_val = Ok r /\
    f1 r == 0 /\ precision r == 0 /\ recall r == 0.
Proof.
  intros Hlen Hnone. unfold evaluate, precision_score, recall_score, f1_score.
  rewrite (check_consistent_length_ok _ _ Hlen). cbn [bind].
  rewrite (true_positives_none _ _ Hnone), (false_positives_none _ _ Hnone).
  eexists. split; [reflexivity|]. cbn [f1 precision recall].
  repeat split; apply divide_zero; reflexivity.
Qed.

Lemma evaluate_no_predicted_positive_witness :
  exists r,
    evaluate (fun X_val : list nat => map (fun _ => 0%Z) X_val)
             [1; 2; 3]%nat [1; 0; 1]%Z = Ok r /\
    f1 r == 0 /\ precision r == 0 /\ recall r == 0.
Proof.
  apply (evaluate_no_predicted_positive nat
           (fun X_val : list nat => map (fun _ => 0%Z) X_val)
           [1; 2; 3]%nat [1; 0; 1]%Z).
  - reflexivity.
  - repeat constructor; discriminate.
Defined.

End MetricsFacts.

(** ** The bootstrap cell *)

Module BootstrapFacts.

Import Metrics Bootstrap.

Section Cell.

Variable X : Type.
Variable resample : list X -> list Z -> Z -> result (list X * list Z).
Variable fit : Z -> list X -> list Z -> result (classifier X).

Lemma map_result_ext {A B} (f g : A -> result B) (l : list A) :
  (forall a, In a l -> f a = g a) -> map_result f l = map_result g l.
Proof.
  induction l as [|a t IH]; intros H; simpl; [reflexivity|].
  rewrite (H a (or_introl eq_refl)), IH; [reflexivity|].
  intros b Hb. apply H. now right.
Qed.

(** The loop appends, in order, the score of each index it visits. *)
Lemma for_each_appends (seed : Z) (pipe : classifier X)
    (nb : notebook X) (l : list nat) (acc : list FPR) :
  for_each X (loop_body X resample seed pipe) l (set_fprs X nb acc)
  = (rs <- map_result (score_of_iteration X resample seed pipe nb) l ;;
     Ok (set_fprs X nb (acc ++ rs))).
Proof.
  revert acc. induction l as [|i t IH]; intros acc; simpl.
  - now rewrite app_nil_r.
  - unfold loop_body at 1, score_of_iteration at 1.
    cbn [X_test y_test fprs set_fprs].
    destruct (resample _ _ _) as [sample|e]; cbn [bind]; [|reflexivity].
    destruct (evaluate pipe _ _) as [fpr|e]; cbn [bind]; [|reflexivity].
    change (set_fprs X (set_fprs X nb acc) (acc ++ [fpr]))
      with (set_fprs X nb (acc ++ [fpr])).
    rewrite IH.
    destruct (map_result _ t) as [rs|e]; cbn [bind]; [|reflexivity].
    now rewrite <- app_assoc.
Qed.

Lemma bootstrap_scores_by_iteration (n : nat) (seed : Z) (nb : notebook X) :
  bootstrap_scores X resample fit n seed nb
  = (pipe <- fit seed (X_train_val X nb) (y_train_val X nb) ;;
     map_result (score_of_iteration X resample seed pipe nb) (seq 0 n)).
Proof.
  unfold bootstrap_scores, bootstrap.
  destruct (fit seed _ _) as [pipe|e]; cbn [bind]; [|reflexivity].
  rewrite for_each_appends.
  destruct (map_result _ (seq 0 n)) as [rs|e]; reflexivity.
Qed.

Lemma iteration_seed_injective (seed : Z) (i j : nat) :
  i <> j -> iteration_seed seed i <> iteration_seed seed j.
Proof. unfold iteration_seed. lia. Qed.

End Cell.

(** C2.  Two runs of the bootstrap with the same base seed and the same
    inputs (the fitted data, the evaluation set, the same resampling and
    fitting routines) leave the same sequence of scores, or raise the same
    exception, whatever [fprs] held before; the score of iteration [i] is
    computed by the pipeline fitted with [seed] from the resample seeded
    with [seed + i]; and different iterations use different seeds. *)
Theorem bootstrap_deterministic
    (X : Type) (resample : list X -> list Z -> Z -> result (list X * list Z))
    (fit : Z -> list X -> list Z -> result (classifier X))
    (n : nat) (seed : Z) (nb1 nb2 : notebook X) :
  same_inputs X nb1 nb2 ->
  bootstrap_scores X resample fit n seed nb1
  = bootstrap_scores X resample fit n seed nb2 /\
  bootstrap_scores X resample fit n seed nb1
  = (pipe <- fit seed (X_train_val X nb1) (y_train_val X nb1) ;;
     map_result
       (fun i =>
          sample <-
            resample (X_test X nb1) (y_test X nb1) (seed + Z.of_nat i)%Z ;;
          evaluate pipe (fst sample) (snd sample))
       (seq 0 n)) /\
  (forall i j, (i < n)%nat -> (j < n)%nat -> i <> j ->
     iteration_seed seed i <> iteration_seed seed j).
Proof.
  intros (H1 & H2 & H3 & H4). split; [|split].
  - rewrite !bootstrap_scores_by_iteration. rewrite H1, H2.
    destruct (fit seed _ _) as [pipe|e]; cbn [bind]; [|reflexivity].
    apply map_result_ext.
    intros i _. unfold score_of_iteration. now rewrite H3, H4.
  - apply bootstrap_scores_by_iteration.
  - intros i j _ _. apply iteration_seed_injective.
Qed.

Lemma bootstrap_deterministic_witness :
  let resample := fun (xs : list nat) (ys : list Z) (s : Z) =>
                    if (length xs =? length ys)%nat
                    then Ok (skipn (Z.to_nat (s mod 2)) xs,
                             skipn (Z.to_nat (s mod 2)) ys)
                    else Raise ValueError in
  let fit := fun (s : Z) (xs : list nat) (ys : list Z) =>
               match xs with
               | [] => Raise ValueError
               | _ :: _ =>
                   Ok (fun v : list nat =>
                         map (fun x => if (x <? 2)%nat then 1%Z else 0%Z) v)
               end in
  let nb1 := {| X_train_val := [0; 1]%nat; y_train_val := [1; 0]%Z;
                X_test := [1; 2; 3]%nat; y_test := [1; 1; 0]%Z;
                fprs := [] |} in
  let nb2 := {| X_train_val := [0; 1]%nat; y_train_val := [1; 0]%Z;
                X_test := [1; 2; 3]%nat; y_test := [1; 1; 0]%Z;
                fprs := [ {| f1 := 1; precision := 1; recall := 1 |} ] |} in
  bootstrap_scores nat resample fit 3 1337 nb1
  = bootstrap_scores nat resample fit 3 1337 nb2.
Proof.
  intros resample fit nb1 nb2.
  apply (bootstrap_deterministic nat resample fit 3 1337 nb1 nb2).
  repeat split; reflexivity.
Defined.

End BootstrapFacts.

(** ** The stratified splitter *)

Module SplitterFacts.

Import Splitter.

(** *** Rounding *)

Lemma round_near (x : Q) :
  x - (1 # 2) <= inject_Z (round x) /\ inject_Z (round x) <= x + (1 # 2).
Proof.
  unfold round.
  destruct (NumpyFacts.floor_bounds x) as [L U].
  destruct (Qcompare (x - inject_Z (Qfloor x)) (1 # 2)) eqn:E.
  - apply Qeq_alt in E.
    destruct (Z.even (Qfloor x)); [|rewrite inject_Z_plus];
      change (inject_Z 1) with 1; split; lra.
  - apply Qlt_alt in E. split; lra.
  - apply Qgt_alt in E. rewrite inject_Z_plus.
    change (inject_Z 1) with 1. split; lra.
Qed.

Lemma round_range (x : Q) (m : Z) :
  0 <= x -> x <= inject_Z m -> (0 <= round x <= m)%Z.
Proof.
  intros H0 Hm. destruct (round_near x) as [L U]. split.
  - assert (inject_Z (-1) < inject_Z (round x)) as H.
    { change (inject_Z (-1)) with (-(1)). lra. }
    rewrite <- Zlt_Qlt in H. lia.
  - assert (inject_Z (round x) < inject_Z (m + 1)) as H.
    { rewrite inject_Z_plus. change (inject_Z 1) with 1. lra. }
    rewrite <- Zlt_Qlt in H. lia.
Qed.

Lemma fraction_of_size (f : Q) (m : nat) :
  0 < f -> f < 1 ->
  0 <= f * inject_Z (Z.of_nat m) /\
  f * inject_Z (Z.of_nat m) <= inject_Z (Z.of_nat m).
Proof.
  intros H0 H1.
  assert (0 <= inject_Z (Z.of_nat m)) as Hm.
  { change 0 with (inject_Z 0). rewrite <- Zle_Qle. lia. }
  split.
  - apply Qmult_le_0_compat; lra.
  - assert (0 <= (1 - f) * inject_Z (Z.of_nat m))
      by (apply Qmult_le_0_compat; lra).
    lra.
Qed.

(** *** Lists of lists *)

Lemma concat_map_app {A B} (f g : A -> list B) (l : list A) :
  Permutation (concat (map (fun a => f a ++ g a) l))
              (concat (map f l) ++ concat (map g l)).
Proof.
  induction l as [|a t IH]; simpl; [constructor|].
  rewrite IH, <- !app_assoc. apply Permutation_app_head.
  rewrite !app_assoc. apply Permutation_app_tail, Permutation_app_comm.
Qed.

Lemma concat_map_perm {A B} (f g : A -> list B) (l : list A) :
  (forall a, In a l -> Permutation (f a) (g a)) ->
  Permutation (concat (map f l)) (concat (map g l)).
Proof.
  induction l as [|a t IH]; intros H; simpl; [constructor|].
  apply Permutation_app.
  - apply H. now left.
  - apply IH. intros b Hb. apply H. now right.
Qed.

Lemma concat_map_perm_id {B} (f : list B -> list B) (l : list (list B)) :
  (forall a, In a l -> Permutation (f a) a) ->
  Permutation (concat (map f l)) (concat l).
Proof.
  intros H. rewrite <- (map_id l) at 2. now apply concat_map_perm.
Qed.

Lemma concat_map_swap {A B C} (f : A -> B -> list C)
    (la : list A) (lb : list B) :
  Permutation (concat (map (fun a => concat (map (f a) lb)) la))
              (concat (map (fun b => concat (map (fun a => f a b) la)) lb)).
Proof.
  induction la as [|a t IH]; simpl.
  - induction lb as [|b u IHb]; simpl; [constructor | exact IHb].
  - rewrite IH. symmetry.
    apply (concat_map_app (fun b => f a b)
             (fun b => concat (map (fun a' => f a' b) t)) lb).
Qed.

Lemma concat_map_of_perm {A B} (f : A -> list B) (l l' : list A) :
  Permutation l l' -> Permutation (concat (map f l)) (concat (map f l')).
Proof.
  intros H. rewrite <- !flat_map_concat_map.
  now apply Permutation_flat_map.
Qed.

Lemma concat_map_nil {A B} (l : list A) :
  concat (map (fun _ => @nil B) l) = [].
Proof. induction l as [|a t IH]; simpl; [reflexivity | exact IH]. Qed.

Lemma map_nth_seq {A} (d : A) (l : list A) :
  map (fun i => nth i l d) (seq 0 (length l)) = l.
Proof.
  induction l as [|a t IH]; simpl; [reflexivity|].
  f_equal. rewrite <- seq_shift, map_map. exact IH.
Qed.

Lemma count_occ_concat_map {A} (f : A -> list nat) (l : list A) (x : nat) :
  count_occ Nat.eq_dec (concat (map f l)) x
  = list_sum (map (fun a => count_occ Nat.eq_dec (f a) x) l).
Proof.
  induction l as [|a t IH]; simpl; [reflexivity|].
  now rewrite count_occ_app, IH.
Qed.

Lemma list_sum_map_add {A} (f g : A -> nat) (l : list A) :
  list_sum (map (fun a => (f a + g a)%nat) l)
  = (list_sum (map f l) + list_sum (map g l))%nat.
Proof.
  induction l as [|a t IH]; simpl; [reflexivity | rewrite IH; lia].
Qed.

Lemma list_sum_map_const {A} (f : A -> nat) (c : nat) (l : list A) :
  (forall a, In a l -> f a = c) ->
  list_sum (map f l) = (length l * c)%nat.
Proof.
  induction l as [|a t IH]; intros H; simpl; [reflexivity|].
  rewrite (H a (or_introl eq_refl)), IH; [lia|].
  intros b Hb. apply H. now right.
Qed.

(** *** Grouping by class *)

Section Groups.

Variable classes : list Z.

Lemma singleton_class (v : Z) (i : nat) (cs : list Z) :
  concat (map (fun c => if (v =? c)%Z then [i] else []) cs)
  = repeat i (count_occ Z.eq_dec cs v).
Proof.
  induction cs as [|c t IH]; simpl; [reflexivity|].
  destruct (Z.eq_dec c v) as [->|NE].
  - rewrite Z.eqb_refl. simpl. now rewrite IH.
  - assert ((v =? c)%Z = false) as -> by (apply Z.eqb_neq; congruence).
    exact IH.
Qed.

(** The class groups of a list of indices, taken together, are that list
    rearranged, when each index has its label listed once in [classes]. *)
Lemma groups_cover (lab : nat -> Z) (l : list nat) :
  (forall i, In i l -> count_occ Z.eq_dec classes (lab i) = 1%nat) ->
  Permutation
    (concat (map (fun c => filter (fun i => (lab i =? c)%Z) l) classes)) l.
Proof.
  induction l as [|i t IH]; intros H.
  - simpl. rewrite concat_map_nil. constructor.
  - apply perm_trans with
      (concat (map (fun c => (if (lab i =? c)%Z then [i] else [])
                             ++ filter (fun j => (lab j =? c)%Z) t) classes)).
    { apply concat_map_perm. intros c _. simpl.
      destruct (lab i =? c)%Z; reflexivity. }
    rewrite (concat_map_app (fun c => if (lab i =? c)%Z then [i] else [])).
    rewrite singleton_class, (H i (or_introl eq_refl)). simpl.
    constructor. apply IH. intros j Hj. apply H. now right.
Qed.

Lemma well_labelled_count (y : list Z) (i : nat) :
  well_labelled classes y = true -> (i < length y)%nat ->
  count_occ Z.eq_dec classes (label_of y i) = 1%nat.
Proof.
  unfold well_labelled. intros H Hi.
  apply andb_prop in H as [Hin Hone].
  rewrite forallb_forall in Hin, Hone.
  assert (In (label_of y i) y) as Hy by (apply nth_In; exact Hi).
  specialize (Hin _ Hy). apply existsb_exists in Hin as (c & Hc & E).
  apply Z.eqb_eq in E. subst c.
  specialize (Hone _ Hc). now apply Nat.eqb_eq in Hone.
Qed.

Lemma groups_partition (y : list Z) :
  well_labelled classes y = true ->
  Permutation (concat (map (group y) classes)) (indices y).
Proof.
  intros H. unfold group. apply groups_cover.
  intros i Hi. apply well_labelled_count; [exact H|].
  unfold indices in Hi. apply in_seq in Hi. lia.
Qed.

End Groups.

(** *** The train/test split *)

Lemma of_nat_add (a b : nat) :
  inject_Z (Z.of_nat (a + b))
  == inject_Z (Z.of_nat a) + inject_Z (Z.of_nat b).
Proof. now rewrite Nat2Z.inj_add, inject_Z_plus. Qed.

Lemma of_nat_succ (a : nat) :
  inject_Z (Z.of_nat (S a)) == inject_Z (Z.of_nat a) + 1.
Proof. now rewrite Nat2Z.inj_succ, <- Z.add_1_r, inject_Z_plus. Qed.

Section Split.

Variable sh : shuffler.
Variable classes : list Z.
Variable f : Q.
Variable seed : Z.
Hypothesis f_pos : 0 < f.
Hypothesis f_lt_1 : f < 1.

Lemma valid_fraction_true : valid_fraction f = true.
Proof.
  unfold valid_fraction, Qltb.
  destruct (Qle_bool f 0) eqn:E0; [apply Qle_bool_iff in E0; lra|].
  destruct (Qle_bool 1 f) eqn:E1; [apply Qle_bool_iff in E1; lra|].
  reflexivity.
Qed.

Lemma n_test_round (g : list nat) :
  Z.of_nat (n_test f g) = round (f * inject_Z (Z.of_nat (length g))).
Proof.
  unfold n_test. apply Z2Nat.id.
  destruct (fraction_of_size f (length g) f_pos f_lt_1) as [A B].
  apply (round_range _ _ A B).
Qed.

Lemma n_test_le (g : list nat) : (n_test f g <= length g)%nat.
Proof.
  destruct (fraction_of_size f (length g) f_pos f_lt_1) as [A B].
  pose proof (round_range _ _ A B) as R.
  rewrite <- n_test_round in R. lia.
Qed.

Lemma group_split (g : list nat) :
  Permutation (train_of_group sh f seed g ++ test_of_group sh f seed g) g.
Proof.
  unfold train_of_group, test_of_group.
  rewrite Permutation_app_comm, firstn_skipn. apply shuffle_perm.
Qed.

Lemma test_of_group_length (g : list nat) :
  length (test_of_group sh f seed g) = n_test f g.
Proof.
  unfold test_of_group. apply firstn_length_le.
  rewrite (Permutation_length (shuffle_perm sh seed g)). apply n_test_le.
Qed.

(** The rounded per-class sizes add up to the fraction of the total, to
    within half a record per class. *)
Lemma sum_of_rounds (gs : list (list nat)) :
  f * inject_Z (Z.of_nat (list_sum (map (@length nat) gs)))
    - (1 # 2) * inject_Z (Z.of_nat (length gs))
  <= inject_Z (Z.of_nat (list_sum (map (n_test f) gs))) /\
  inject_Z (Z.of_nat (list_sum (map (n_test f) gs)))
  <= f * inject_Z (Z.of_nat (list_sum (map (@length nat) gs)))
     + (1 # 2) * inject_Z (Z.of_nat (length gs)).
Proof.
  induction gs as [|g t [IHl IHu]].
  - simpl. change (inject_Z 0) with 0. split; lra.
  - change (list_sum (map (@length nat) (g :: t)))
      with (length g + list_sum (map (@length nat) t))%nat.
    change (list_sum (map (n_test f) (g :: t)))
      with (n_test f g + list_sum (map (n_test f) t))%nat.
    change (length (g :: t)) with (S (length t)).
    rewrite !of_nat_add, of_nat_succ, n_test_round.
    destruct (round_near (f * inject_Z (Z.of_nat (length g)))) as [L U].
    split; lra.
Qed.

Lemma groups_total (y : list Z) :
  well_labelled classes y = true ->
  list_sum (map (@length nat) (map (group y) classes)) = length y.
Proof.
  intros H. rewrite <- length_concat.
  rewrite (Permutation_length (groups_partition classes y H)).
  apply length_seq.
Qed.

Lemma test_partition_length (gs : list (list nat)) :
  length (concat (map (test_of_group sh f seed) gs))
  = list_sum (map (n_test f) gs).
Proof.
  rewrite length_concat, map_map. f_equal.
  apply map_ext. intros g. apply test_of_group_length.
Qed.

Lemma test_partition_size (y : list Z) :
  well_labelled classes y = true ->
  (Z.abs (Z.of_nat (length (concat (map (test_of_group sh f seed)
                                        (map (group y) classes))))
          - round (f * inject_Z (Z.of_nat (length y))))
   <= Z.of_nat (length classes))%Z.
Proof.
  intros H. rewrite test_partition_length.
  destruct (sum_of_rounds (map (group y) classes)) as [L U].
  rewrite (groups_total y H), length_map in L, U.
  destruct (round_near (f * inject_Z (Z.of_nat (length y)))) as [L' U'].
  set (S := Z.of_nat (list_sum (map (n_test f) (map (group y) classes))))
    in *.
  set (R := round (f * inject_Z (Z.of_nat (length y)))) in *.
  set (C := Z.of_nat (length classes)) in *.
  assert (0 <= inject_Z C) as HC.
  { change 0 with (inject_Z 0). rewrite <- Zle_Qle. subst C. lia. }
  assert (inject_Z (S - R) < inject_Z (C + 1)) as H1.
  { unfold Z.sub. rewrite !inject_Z_plus, inject_Z_opp.
    change (inject_Z 1) with 1. lra. }
  assert (inject_Z (R - S) < inject_Z (C + 1)) as H2.
  { unfold Z.sub. rewrite !inject_Z_plus, inject_Z_opp.
    change (inject_Z 1) with 1. lra. }
  rewrite <- Zlt_Qlt in H1, H2. lia.
Qed.

Lemma split_partition (y : list Z) :
  well_labelled classes y = true ->
  Permutation
    (concat (map (train_of_group sh f seed) (map (group y) classes))
     ++ concat (map (test_of_group sh f seed) (map (group y) classes)))
    (indices y).
Proof.
  intros H.
  rewrite <- (concat_map_app (train_of_group sh f seed)
                (test_of_group sh f seed)).
  apply perm_trans with (concat (map (group y) classes));
    [|apply groups_partition; exact H].
  apply concat_map_perm_id. intros g _. apply group_split.
Qed.

End Split.

(** C3.  For a well-labelled dataset with at least one example of every
    class and a test fraction [f] strictly between 0 and 1,
    [stratified_split] returns a train and a test partition that are
    disjoint, that together are exactly the indices of the dataset, and
    whose test partition has [round(f * |D|)] members to within one per
    class group. *)
Theorem stratified_split_partition
    (sh : shuffler) (classes : list Z) (y : list Z) (f : Q) (seed : Z) :
  well_labelled classes y = true ->
  every_class_present classes y = true ->
  0 < f -> f < 1 ->
  exists train test,
    stratified_split sh classes y f seed = Done (train, test) /\
    (forall i, In i train -> ~ In i test) /\
    (forall i, (i < length y)%nat <-> In i train \/ In i test) /\
    NoDup (train ++ test) /\
    (Z.abs (Z.of_nat (length test)
            - round (f * inject_Z (Z.of_nat (length y))))
     <= Z.of_nat (length classes))%Z.
Proof.
  intros Hwl Hpresent H0 H1.
  pose proof (split_partition sh classes f seed y Hwl) as Hperm.
  pose proof (test_partition_size sh classes f seed H0 H1 y Hwl) as Hsize.
  set (train := concat (map (train_of_group sh f seed)
                            (map (group y) classes))) in *.
  set (test := concat (map (test_of_group sh f seed)
                           (map (group y) classes))) in *.
  assert (NoDup (train ++ test)) as Hnd.
  { apply (Permutation_NoDup (Permutation_sym Hperm)). apply seq_NoDup. }
  exists train, test. split; [|split; [|split; [|split]]].
  - unfold stratified_split.
    rewrite (valid_fraction_true f H0 H1), Hpresent. reflexivity.
  - intros i Hi Ht. apply in_split in Hi as (l1 & l2 & E).
    rewrite E, <- app_assoc in Hnd. simpl in Hnd.
    apply NoDup_remove_2 in Hnd. apply Hnd.
    apply in_or_app. right. apply in_or_app. now right.
  - intros i. rewrite <- in_app_iff. split; intros Hi.
    + apply (Permutation_in _ (Permutation_sym Hperm)).
      apply in_seq. lia.
    + apply (Permutation_in _ Hperm) in Hi. apply in_seq in Hi. lia.
  - exact Hnd.
  - exact Hsize.
Qed.

Lemma stratified_split_partition_witness :
  exists train test,
    stratified_split rotation [0; 1]%Z [0; 0; 0; 0; 0; 0; 0; 1; 1; 1]%Z
      (2 # 10) 3 = Done (train, test) /\
    (forall i, In i train -> ~ In i test) /\
    (forall i, (i < 10)%nat <-> In i train \/ In i test) /\
    NoDup (train ++ test) /\
    (Z.abs (Z.of_nat (length test) - round ((2 # 10) * inject_Z 10)) <= 2)%Z.
Proof.
  apply (stratified_split_partition rotation [0; 1]%Z
           [0; 0; 0; 0; 0; 0; 0; 1; 1; 1]%Z (2 # 10) 3).
  - reflexivity.
  - reflexivity.
  - reflexivity.
  - reflexivity.
Defined.

(** *** Counting *)

Lemma in_fold_count (x : nat) (l : list nat) :
  in_fold x l = (0 <? count_occ Nat.eq_dec l x)%nat.
Proof.
  unfold in_fold. induction l as [|a t IH]; simpl; [reflexivity|].
  destruct (Nat.eq_dec a x) as [->|NE].
  - now rewrite Nat.eqb_refl.
  - assert ((x =? a)%nat = false) as -> by (apply Nat.eqb_neq; congruence).
    exact IH.
Qed.

Lemma count_at_most_one {A} (h : A -> nat) (l : list A) :
  (forall a, In a l -> (h a <= 1)%nat) ->
  length (filter (fun a => (0 <? h a)%nat) l) = list_sum (map h l).
Proof.
  induction l as [|a t IH]; intros H; simpl; [reflexivity|].
  pose proof (H a (or_introl eq_refl)) as Ha.
  rewrite <- IH by (intros b Hb; apply H; now right).
  destruct (h a) as [|[|n]]; simpl; lia.
Qed.

Lemma filter_map_length {A B} (p : B -> bool) (g : A -> B) (l : list A) :
  length (filter p (map g l)) = length (filter (fun a => p (g a)) l).
Proof.
  induction l as [|a t IH]; simpl; [reflexivity|].
  destruct (p (g a)); simpl; now rewrite IH.
Qed.

Lemma filter_absent (i : nat) (l : list nat) :
  ~ In i l -> filter (fun j => negb (j =? i)%nat) l = l.
Proof.
  induction l as [|a t IH]; intros H; simpl; [reflexivity|].
  assert ((a =? i)%nat = false) as ->.
  { apply Nat.eqb_neq. intros ->. apply H. now left. }
  simpl. f_equal. apply IH. intros Hi. apply H. now right.
Qed.

(** Taking one element out of a duplicate-free list. *)
Lemma select_perm (i : nat) (l : list nat) :
  NoDup l -> In i l ->
  Permutation l (i :: filter (fun j => negb (j =? i)%nat) l).
Proof.
  induction 1 as [|a t Ha Hnd IH]; intros Hi; [destruct Hi|].
  simpl. destruct (Nat.eq_dec a i) as [->|NE].
  - rewrite Nat.eqb_refl. simpl. now rewrite filter_absent.
  - assert ((a =? i)%nat = false) as -> by (now apply Nat.eqb_neq).
    simpl. destruct Hi as [E|Hi]; [congruence|].
    rewrite perm_swap. constructor. now apply IH.
Qed.

(** *** Folds *)

Lemma fold_sizes_aux (q r k : nat) :
  list_sum (map (fun i => (q + (if i <? r then 1 else 0))%nat) (seq 0 k))
  = (k * q + Nat.min k r)%nat.
Proof.
  induction k as [|k IH]; [reflexivity|].
  rewrite seq_S, map_app, list_sum_app, IH.
  cbn [map list_sum fold_right Nat.add].
  destruct (k <? r)%nat eqn:E.
  - apply Nat.ltb_lt in E. lia.
  - apply Nat.ltb_ge in E. lia.
Qed.

Lemma fold_sizes_sum (m k : nat) :
  (0 < k)%nat -> list_sum (fold_sizes m k) = m.
Proof.
  intros Hk. unfold fold_sizes. rewrite fold_sizes_aux.
  pose proof (Nat.div_mod_eq m k) as E.
  pose proof (Nat.mod_upper_bound m k) as U. lia.
Qed.

Lemma chunks_length (sizes : list nat) (l : list nat) :
  length (chunks sizes l) = length sizes.
Proof.
  revert l. induction sizes as [|s t IH]; intros l; simpl;
    [reflexivity | now rewrite IH].
Qed.

Lemma chunks_concat (sizes : list nat) (l : list nat) :
  list_sum sizes = length l -> concat (chunks sizes l) = l.
Proof.
  revert l. induction sizes as [|s t IH]; intros l H; simpl in *.
  - symmetry. now apply length_zero_iff_nil.
  - rewrite IH; [apply firstn_skipn|].
    rewrite length_skipn. lia.
Qed.

Section KFold.

Variable sh : shuffler.
Variable classes : list Z.
Variable y : list Z.
Variable k : nat.
Variable seed : Z.
Hypothesis k_pos : (0 < k)%nat.
Hypothesis labelled : well_labelled classes y = true.

Lemma class_folds_length (c : Z) :
  length (class_folds sh y k seed c) = k.
Proof.
  unfold class_folds, fold_sizes.
  now rewrite chunks_length, length_map, length_seq.
Qed.

Lemma class_folds_concat (c : Z) :
  concat (class_folds sh y k seed c) = shuffle sh seed (group y c).
Proof.
  unfold class_folds. apply chunks_concat, fold_sizes_sum, k_pos.
Qed.

(** The validation folds, taken together, are the indices rearranged. *)
Lemma validation_folds_partition :
  Permutation (concat (map (validation_fold sh classes y k seed) (seq 0 k)))
              (indices y).
Proof.
  unfold validation_fold.
  rewrite (concat_map_swap
             (fun i c => nth i (class_folds sh y k seed c) []) (seq 0 k)
             classes).
  apply perm_trans with (concat (map (group y) classes));
    [|apply groups_partition; exact labelled].
  apply concat_map_perm. intros c _.
  rewrite <- (class_folds_length c) at 1.
  rewrite map_nth_seq, class_folds_concat. apply shuffle_perm.
Qed.

(** A fold's training set and validation set, together, are the indices
    rearranged. *)
Lemma fold_partition (i : nat) :
  (i < k)%nat ->
  Permutation (training_fold sh classes y k seed i
               ++ validation_fold sh classes y k seed i)
              (indices y).
Proof.
  intros Hi. rewrite Permutation_app_comm.
  apply perm_trans with
    (concat (map (validation_fold sh classes y k seed) (seq 0 k)));
    [|exact validation_folds_partition].
  unfold training_fold.
  change (validation_fold sh classes y k seed i
          ++ concat (map (validation_fold sh classes y k seed)
                         (filter (fun j => negb (j =? i)%nat) (seq 0 k))))
    with (concat (map (validation_fold sh classes y k seed)
                      (i :: filter (fun j => negb (j =? i)%nat) (seq 0 k)))).
  apply concat_map_of_perm, Permutation_sym, select_perm.
  - apply seq_NoDup.
  - apply in_seq. lia.
Qed.

Lemma index_count (x : nat) :
  (x < length y)%nat -> count_occ Nat.eq_dec (indices y) x = 1%nat.
Proof.
  intros Hx. apply NoDup_count_occ'; [apply seq_NoDup|].
  apply in_seq. lia.
Qed.

Lemma validation_count (x : nat) :
  (x < length y)%nat ->
  list_sum (map (fun i => count_occ Nat.eq_dec
                            (validation_fold sh classes y k seed i) x)
                (seq 0 k)) = 1%nat.
Proof.
  intros Hx. rewrite <- count_occ_concat_map.
  rewrite (proj1 (Permutation_count_occ Nat.eq_dec _ _)
             validation_folds_partition x).
  now apply index_count.
Qed.

Lemma fold_count (x i : nat) :
  (x < length y)%nat -> (i < k)%nat ->
  (count_occ Nat.eq_dec (training_fold sh classes y k seed i) x
   + count_occ Nat.eq_dec (validation_fold sh classes y k seed i) x
   = 1)%nat.
Proof.
  intros Hx Hi. rewrite <- count_occ_app.
  rewrite (proj1 (Permutation_count_occ Nat.eq_dec _ _) (fold_partition i Hi) x).
  now apply index_count.
Qed.

Lemma training_count (x : nat) :
  (x < length y)%nat ->
  list_sum (map (fun i => count_occ Nat.eq_dec
                            (training_fold sh classes y k seed i) x)
                (seq 0 k)) = (k - 1)%nat.
Proof.
  intros Hx.
  pose proof (list_sum_map_add
                (fun i => count_occ Nat.eq_dec
                            (training_fold sh classes y k seed i) x)
                (fun i => count_occ Nat.eq_dec
                            (validation_fold sh classes y k seed i) x)
                (seq 0 k)) as E.
  rewrite (validation_count x Hx) in E.
  rewrite (list_sum_map_const _ 1) in E.
  - rewrite length_seq in E. lia.
  - intros i Hi. apply fold_count; [exact Hx|]. apply in_seq in Hi. lia.
Qed.

End KFold.

(** When two lists together are the indices [0..n-1] rearranged, each is
    the complement of the other. *)
Lemma partition_complement (a b : list nat) (n : nat) :
  Permutation (a ++ b) (seq 0 n) ->
  forall x, In x a <-> (x < n)%nat /\ ~ In x b.
Proof.
  intros Hperm x.
  assert (NoDup (a ++ b)) as Hnd.
  { apply (Permutation_NoDup (Permutation_sym Hperm)), seq_NoDup. }
  split.
  - intros Hx. split.
    + assert (In x (seq 0 n)) as H.
      { apply (Permutation_in _ Hperm), in_or_app. now left. }
      apply in_seq in H. lia.
    + intros Hb. apply in_split in Hx as (l1 & l2 & E).
      rewrite E, <- app_assoc in Hnd. simpl in Hnd.
      apply NoDup_remove_2 in Hnd. apply Hnd.
      apply in_or_app. right. apply in_or_app. now right.
  - intros [Hx Hb].
    assert (In x (a ++ b)) as H.
    { apply (Permutation_in _ (Permutation_sym Hperm)), in_seq. lia. }
    apply in_app_or in H as [H|H]; [exact H | contradiction].
Qed.

(** C4.  For a well-labelled dataset whose every class has at least [k]
    members and [k >= 2], [stratified_kfold] returns [k] folds such that
    every dataset index is in the validation set of exactly one fold,
    occurs exactly once in the validation sets taken together, is in the
    training set of exactly [k-1] folds (and occurs [k-1] times in the
    training sets taken together), and the training set of each fold is
    the full index set minus the validation set of that fold. *)
Theorem stratified_kfold_partition
    (sh : shuffler) (classes : list Z) (y : list Z) (k : nat) (seed : Z) :
  well_labelled classes y = true ->
  every_class_has classes y k = true ->
  (2 <= k)%nat ->
  exists folds,
    stratified_kfold sh classes y k seed = Done folds /\
    length folds = k /\
    (forall x, (x < length y)%nat ->
       length (filter (fun fd => in_fold x (snd fd)) folds) = 1%nat /\
       count_occ Nat.eq_dec (concat (map snd folds)) x = 1%nat /\
       length (filter (fun fd => in_fold x (fst fd)) folds) = (k - 1)%nat /\
       count_occ Nat.eq_dec (concat (map fst folds)) x = (k - 1)%nat) /\
    (forall tr va, In (tr, va) folds ->
       Permutation (tr ++ va) (indices y) /\
       (forall x, In x tr <-> (x < length y)%nat /\ ~ In x va)).
Proof.
  intros Hwl Hhas Hk.
  assert (0 < k)%nat as Hpos by lia.
  set (T := training_fold sh classes y k seed).
  set (V := validation_fold sh classes y k seed).
  exists (map (fun i => (T i, V i)) (seq 0 k)).
  split; [|split; [|split]].
  - unfold stratified_kfold.
    assert ((k <? 2)%nat = false) as -> by (apply Nat.ltb_ge; exact Hk).
    rewrite Hhas. reflexivity.
  - now rewrite length_map, length_seq.
  - intros x Hx.
    assert (forall i, In i (seq 0 k) ->
              (count_occ Nat.eq_dec (T i) x
               + count_occ Nat.eq_dec (V i) x = 1)%nat) as Hone.
    { intros i Hi. apply fold_count; try assumption.
      apply in_seq in Hi. lia. }
    pose proof (validation_count sh classes y k seed Hpos Hwl x Hx) as HV.
    pose proof (training_count sh classes y k seed Hpos Hwl x Hx) as HT.
    fold V in HV. fold T in HT.
    rewrite !filter_map_length, !map_map. cbn [fst snd].
    rewrite !count_occ_concat_map.
    rewrite (filter_ext _ _ (fun i => in_fold_count x (V i))).
    rewrite (filter_ext _ _ (fun i => in_fold_count x (T i))).
    rewrite (count_at_most_one (fun i => count_occ Nat.eq_dec (V i) x))
      by (intros i Hi; specialize (Hone i Hi); lia).
    rewrite (count_at_most_one (fun i => count_occ Nat.eq_dec (T i) x))
      by (intros i Hi; specialize (Hone i Hi); lia).
    repeat split; assumption.
  - intros tr va Hin. apply in_map_iff in Hin as (i & E & Hi).
    injection E as <- <-. apply in_seq in Hi.
    assert (Permutation (T i ++ V i) (indices y)) as Hperm
      by (apply fold_partition; try assumption; lia).
    split; [exact Hperm|].
    apply partition_complement. exact Hperm.
Qed.

Lemma stratified_kfold_partition_witness :
  exists folds,
    stratified_kfold rotation [0; 1]%Z [0; 0; 0; 0; 0; 0; 0; 1; 1; 1]%Z 3 1
    = Done folds /\
    length folds = 3%nat /\
    (forall x, (x < 10)%nat ->
       length (filter (fun fd => in_fold x (snd fd)) folds) = 1%nat /\
       count_occ Nat.eq_dec (concat (map snd folds)) x = 1%nat /\
       length (filter (fun fd => in_fold x (fst fd)) folds) = 2%nat /\
       count_occ Nat.eq_dec (concat (map fst folds)) x = 2%nat) /\
    (forall tr va, In (tr, va) folds ->
       Permutation (tr ++ va) (seq 0 10) /\
       (forall x, In x tr <-> (x < 10)%nat /\ ~ In x va)).
Proof.
  apply (stratified_kfold_partition rotation [0; 1]%Z
           [0; 0; 0; 0; 0; 0; 0; 1; 1; 1]%Z 3 1).
  - reflexivity.
  - reflexivity.
  - lia.
Defined.

End SplitterFacts.

(** ** More on the class ratio *)

Module FrameMore.

Import Frame Arrays.

Lemma filter_perm {A} (p : A -> bool) (l l' : list A) :
  Permutation l l' -> Permutation (filter p l) (filter p l').
Proof.
  induction 1 as [|a l l' H IH|a b l|l l' l'' H1 IH1 H2 IH2]; simpl.
  - constructor.
  - destruct (p a); [constructor|]; exact IH.
  - destruct (p a), (p b); try reflexivity. apply perm_swap.
  - eapply perm_trans; eassumption.
Qed.

Lemma truediv_value (n d : nat) :
  (0 < d)%nat -> truediv n d = Ok (Z.of_nat n # Pos.of_nat d).
Proof. destruct d; [lia | reflexivity]. Qed.

(** Comparing two quotients of counts is comparing cross products. *)
Lemma fraction_le (n1 d1 n2 d2 : nat) :
  (0 < d1)%nat -> (0 < d2)%nat ->
  (Z.of_nat n1 # Pos.of_nat d1 <= Z.of_nat n2 # Pos.of_nat d2
   <-> (n1 * d2 <= n2 * d1)%nat).
Proof.
  intros H1 H2. unfold Qle. cbn [Qnum Qden].
  rewrite <- !positive_nat_Z, !Nat2Pos.id by lia.
  rewrite <- !Nat2Z.inj_mul, <- Nat2Z.inj_le. reflexivity.
Qed.

(** X1.  The ratio does not depend on the order of the rows. *)
Theorem tasty_ratio_row_order (df df' : dataframe) :
  Permutation df df' -> tasty_ratio df = tasty_ratio df'.
Proof.
  intros H. unfold tasty_ratio.
  rewrite (Permutation_length H).
  now rewrite (Permutation_length (filter_perm _ _ _ H)).
Qed.

Lemma tasty_ratio_row_order_witness :
  tasty_ratio [ {| features := []; tasty := 1 |};
                {| features := []; tasty := 0 |} ]
  = tasty_ratio [ {| features := []; tasty := 0 |};
                  {| features := []; tasty := 1 |} ].
Proof.
  apply (tasty_ratio_row_order
           [ {| features := []; tasty := 1 |};
             {| features := []; tasty := 0 |} ]
           [ {| features := []; tasty := 0 |};
             {| features := []; tasty := 1 |} ]).
  apply perm_swap.
Defined.

(** X2.  When a frame is split into two non-empty parts, the ratio of the whole
    lies between the ratios of the parts: a part above the overall ratio
    forces the other part below it. *)
Theorem tasty_ratio_of_split (df a b : dataframe) :
  Permutation (a ++ b) df -> a <> [] -> b <> [] ->
  exists ra rb r,
    tasty_ratio a = Ok ra /\ tasty_ratio b = Ok rb /\ tasty_ratio df = Ok r /\
    ((ra <= r /\ r <= rb) \/ (rb <= r /\ r <= ra)).
Proof.
  intros Hperm Ha Hb.
  unfold tasty_ratio.
  rewrite <- (Permutation_length Hperm).
  rewrite <- (Permutation_length
                (filter_perm (fun r => (tasty r =? 1)%Z) _ _ Hperm)).
  rewrite filter_app, !length_app.
  set (na := length (filter (fun r => (tasty r =? 1)%Z) a)).
  set (nb := length (filter (fun r => (tasty r =? 1)%Z) b)).
  assert (0 < length a)%nat as La by (destruct a; [congruence | simpl; lia]).
  assert (0 < length b)%nat as Lb by (destruct b; [congruence | simpl; lia]).
  rewrite !truediv_value by lia.
  do 3 eexists. repeat (split; [reflexivity|]).
  rewrite !fraction_le by lia.
  destruct (Nat.le_gt_cases (na * length b) (nb * length a)); [left | right];
    split; nia.
Qed.

Lemma tasty_ratio_of_split_witness :
  exists ra rb r,
    tasty_ratio [ {| features := []; tasty := 1 |} ] = Ok ra /\
    tasty_ratio [ {| features := []; tasty := 0 |};
                  {| features := []; tasty := 1 |};
                  {| features := []; tasty := 0 |} ] = Ok rb /\
    tasty_ratio [ {| features := []; tasty := 1 |};
                  {| features := []; tasty := 0 |};
                  {| features := []; tasty := 1 |};
                  {| features := []; tasty := 0 |} ] = Ok r /\
    ((ra <= r /\ r <= rb) \/ (rb <= r /\ r <= ra)).
Proof.
  apply (tasty_ratio_of_split
           [ {| features := []; tasty := 1 |};
             {| features := []; tasty := 0 |};
             {| features := []; tasty := 1 |};
             {| features := []; tasty := 0 |} ]
           [ {| features := []; tasty := 1 |} ]
           [ {| features := []; tasty := 0 |};
             {| features := []; tasty := 1 |};
             {| features := []; tasty := 0 |} ]).
  - apply Permutation_refl.
  - discriminate.
  - discriminate.
Defined.

Lemma np_sum_positives (y : list Z) :
  Forall (fun l => l = 0%Z \/ l = 1%Z) y ->
  np_sum y = Z.of_nat (length (filter (fun l => (l =? 1)%Z) y)).
Proof.
  induction 1 as [|l t Hl Ht IH]; [reflexivity|].
  cbn [np_sum fold_right filter]. fold (np_sum t). rewrite IH.
  destruct Hl as [-> | ->]; cbn [Z.eqb Pos.eqb length]; lia.
Qed.

Lemma filter_map_tasty (df : dataframe) :
  length (filter (fun l => (l =? 1)%Z) (map tasty df))
  = length (filter (fun r => (tasty r =? 1)%Z) df).
Proof.
  induction df as [|r t IH]; simpl; [reflexivity|].
  destruct (tasty r =? 1)%Z; simpl; now rewrite IH.
Qed.

(** X3.  [to_features] keeps one feature row and one label per record, and for
    0/1 labels the sum of the label array is the count that
    [tasty_ratio] divides: the ratio is [y.sum() / len(y)]. *)
Theorem label_sum_counts_positives (df : dataframe) :
  Forall (fun r => tasty r = 0%Z \/ tasty r = 1%Z) df ->
  let X := fst (to_features df) in
  let y := snd (to_features df) in
  length X = length df /\ length y = length df /\
  (0 <= np_sum y <= Z.of_nat (length y))%Z /\
  tasty_ratio df = truediv (Z.to_nat (np_sum y)) (length y).
Proof.
  intros Hbin. cbn [to_features fst snd].
  assert (np_sum (map tasty df)
          = Z.of_nat (length (filter (fun r => (tasty r =? 1)%Z) df))) as E.
  { rewrite np_sum_positives, filter_map_tasty; [reflexivity|].
    rewrite Forall_map. exact Hbin. }
  rewrite !length_map, E, Nat2Z.id.
  pose proof (filter_length_le (fun r => (tasty r =? 1)%Z) df).
  repeat split; try reflexivity; lia.
Qed.

Lemma label_sum_counts_positives_witness :
  tasty_ratio [ {| features := [1 # 2]; tasty := 1 |};
                {| features := [1 # 3]; tasty := 0 |} ]
  = truediv (Z.to_nat (np_sum [1; 0]%Z)) 2.
Proof.
  apply (label_sum_counts_positives
           [ {| features := [1 # 2]; tasty := 1 |};
             {| features := [1 # 3]; tasty := 0 |} ]).
  constructor; [now right|]. constructor; [now left|]. constructor.
Defined.

Lemma fraction_zero (n d : nat) :
  (0 < d)%nat -> (Z.of_nat n # Pos.of_nat d == 0 <-> n = O).
Proof.
  intros Hd. unfold Qeq. cbn [Qnum Qden]. lia.
Qed.

Lemma fraction_one (n d : nat) :
  (0 < d)%nat -> (Z.of_nat n # Pos.of_nat d == 1 <-> n = d).
Proof.
  intros Hd. unfold Qeq. cbn [Qnum Qden].
  rewrite <- (positive_nat_Z (Pos.of_nat d)), Nat2Pos.id by lia. lia.
Qed.

Lemma filter_none {A} (p : A -> bool) (l : list A) :
  length (filter p l) = O <-> Forall (fun a => p a = false) l.
Proof.
  induction l as [|a t IH]; simpl.
  - split; [constructor | reflexivity].
  - destruct (p a) eqn:E; simpl.
    + split; [discriminate|]. intros H. inversion H. congruence.
    + rewrite IH. split; [now constructor | intros H; now inversion H].
Qed.

Lemma filter_all {A} (p : A -> bool) (l : list A) :
  length (filter p l) = length l <-> Forall (fun a => p a = true) l.
Proof.
  split.
  - intros H. apply filter_length_forallb in H.
    rewrite forallb_forall in H. now apply Forall_forall.
  - intros H. rewrite forallb_filter_id; [reflexivity|].
    apply forallb_forall. now apply Forall_forall.
Qed.

(** X4.  On a non-empty frame the ratio is 0 exactly when no row is tasty and 1
    exactly when every row is. *)
Theorem tasty_ratio_extremes (df : dataframe) (r : Q) :
  tasty_ratio df = Ok r ->
  (r == 0 <-> Forall (fun row => tasty row <> 1%Z) df) /\
  (r == 1 <-> Forall (fun row => tasty row = 1%Z) df).
Proof.
  unfold tasty_ratio. intros H.
  assert (0 < length df)%nat as Hd.
  { destruct (length df); [discriminate | lia]. }
  rewrite truediv_value in H by exact Hd. injection H as <-.
  rewrite fraction_zero, fraction_one by exact Hd.
  rewrite filter_none, filter_all. split.
  - split; intros H; eapply Forall_impl; try exact H; intros row Hrow.
    + now apply Z.eqb_neq.
    + now apply Z.eqb_neq.
  - split; intros H; eapply Forall_impl; try exact H; intros row Hrow.
    + now apply Z.eqb_eq.
    + now apply Z.eqb_eq.
Qed.

Lemma tasty_ratio_extremes_witness :
  (0 == 0 <->
   Forall (fun row => tasty row <> 1%Z)
     [ {| features := []; tasty := 0 |} ]) /\
  (0 == 1 <->
   Forall (fun row => tasty row = 1%Z)
     [ {| features := []; tasty := 0 |} ]).
Proof.
  apply (tasty_ratio_extremes [ {| features := []; tasty := 0 |} ] 0).
  reflexivity.
Defined.

End FrameMore.

(** ** More on the scores of [evaluate] *)

Module MetricsMore.

Import Frame Metrics Scores.

Lemma divide_unit (num den : nat) (zd : zero_division) :
  (num <= den)%nat ->
  0 <= zero_division_value zd -> zero_division_value zd <= 1 ->
  0 <= divide num den zd /\ divide num den zd <= 1.
Proof.
  intros Hle H0 H1. destruct den as [|d]; cbn [divide]; [tauto|].
  unfold Qle. cbn [Qnum Qden]. split; lia.
Qed.

Lemma divide_self (n : nat) (zd : zero_division) :
  (0 < n)%nat -> divide n n zd == 1.
Proof.
  intros Hn. destruct n as [|m]; [lia|]. cbn [divide].
  apply FrameMore.fraction_one; lia.
Qed.

Lemma check_consistent_length_fails (y_true y_pred : list Z) :
  length y_true <> length y_pred ->
  check_consistent_length y_true y_pred = Raise ValueError.
Proof.
  intros H. unfold check_consistent_length.
  now apply Nat.eqb_neq in H as ->.
Qed.

Lemma evaluate_returns_unit
    (X : Type) (clf : classifier X) (X_val : list X) (y_val : list Z) :
  length y_val = length (clf X_val) ->
  exists r, evaluate clf X_val y_val = Ok r /\ unit_fpr r.
Proof.
  intros H. unfold evaluate, precision_score, recall_score, f1_score.
  rewrite (MetricsFacts.check_consistent_length_ok _ _ H). cbn [bind].
  eexists. split; [reflexivity|]. unfold unit_fpr. cbn [f1 precision recall].
  repeat split; apply divide_unit; cbn; try lra; lia.
Qed.

Lemma evaluate_ok_unit
    (X : Type) (clf : classifier X) (X_val : list X) (y_val : list Z)
    (r : FPR) :
  evaluate clf X_val y_val = Ok r -> unit_fpr r.
Proof.
  intros H.
  destruct (Nat.eq_dec (length y_val) (length (clf X_val))) as [E|NE].
  - destruct (evaluate_returns_unit X clf X_val y_val E) as (r' & Er & Hr).
    congruence.
  - unfold evaluate, precision_score in H.
    rewrite (check_consistent_length_fails _ _ NE) in H. discriminate.
Qed.

(** X5.  Whenever [evaluate] returns, each of its three scores lies between
    0 and 1; and when the classifier does not return one label per row it
    raises a ValueError. *)
Theorem evaluate_scores_in_unit_interval
    (X : Type) (clf : classifier X) (X_val : list X) (y_val : list Z) :
  (forall r, evaluate clf X_val y_val = Ok r -> unit_fpr r) /\
  (length y_val <> length (clf X_val) ->
   evaluate clf X_val y_val = Raise ValueError).
Proof.
  split.
  - intros r H.
    destruct (Nat.eq_dec (length y_val) (length (clf X_val))) as [E|NE].
    + destruct (evaluate_returns_unit X clf X_val y_val E) as (r' & Er & Hr).
      congruence.
    + unfold evaluate, precision_score in H.
      rewrite (check_consistent_length_fails _ _ NE) in H. discriminate.
  - intros H. unfold evaluate, precision_score.
    now rewrite (check_consistent_length_fails _ _ H).
Qed.

Lemma evaluate_scores_in_unit_interval_witness :
  unit_fpr {| f1 := 2 # 4; precision := 1 # 2; recall := 1 # 2 |} /\
  evaluate (fun _ : list nat => [1; 0]%Z) [1; 2; 3]%nat [1; 1; 0]%Z
  = Raise ValueError.
Proof.
  destruct (evaluate_scores_in_unit_interval nat
              (fun _ : list nat => [1; 0; 1]%Z) [1; 2; 3]%nat [1; 1; 0]%Z)
    as [Hunit _].
  destruct (evaluate_scores_in_unit_interval nat
              (fun _ : list nat => [1; 0]%Z) [1; 2; 3]%nat [1; 1; 0]%Z)
    as [_ Hraise].
  split.
  - apply Hunit. reflexivity.
  - apply Hraise. discriminate.
Defined.

Lemma count_pairs_diagonal (p : Z -> Z -> bool) (y : list Z) :
  count_pairs p y y = length (filter (fun t => p t t) y).
Proof.
  induction y as [|t ts IH]; simpl; [reflexivity|].
  rewrite IH. destruct (p t t); reflexivity.
Qed.

Lemma filter_never {A} (p : A -> bool) (l : list A) :
  (forall a, p a = false) -> filter p l = [].
Proof.
  intros H. induction l as [|a t IH]; simpl; [reflexivity|].
  now rewrite H.
Qed.

(** X6.  A classifier that reproduces the ground truth, on a set with at least
    one positive, scores 1 on all three metrics. *)
Theorem evaluate_perfect_predictions
    (X : Type) (clf : classifier X) (X_val : list X) (y_val : list Z) :
  clf X_val = y_val -> In 1%Z y_val ->
  exists r,
    evaluate clf X_val y_val = Ok r /\
    f1 r == 1 /\ precision r == 1 /\ recall r == 1.
Proof.
  intros Hperfect Hpos.
  unfold evaluate, precision_score, recall_score, f1_score.
  rewrite Hperfect, (MetricsFacts.check_consistent_length_ok _ _ eq_refl).
  cbn [bind].
  unfold true_positives, false_positives, false_negatives.
  rewrite !count_pairs_diagonal.
  rewrite (filter_never (fun t => negb (t =? 1)%Z && (t =? 1)%Z))
    by (intros a; destruct (a =? 1)%Z; reflexivity).
  rewrite (filter_never (fun t => (t =? 1)%Z && negb (t =? 1)%Z))
    by (intros a; destruct (a =? 1)%Z; reflexivity).
  cbn [length]. rewrite !Nat.add_0_r.
  assert (0 < length (filter (fun t => (t =? 1)%Z && (t =? 1)%Z) y_val))%nat
    as Htp.
  { assert (In 1%Z (filter (fun t => (t =? 1)%Z && (t =? 1)%Z) y_val)) as H
      by (apply filter_In; split; [exact Hpos | reflexivity]).
    destruct (filter _ y_val); [destruct H | simpl; lia]. }
  eexists. split; [reflexivity|]. cbn [f1 precision recall].
  repeat split; apply divide_self; lia.
Qed.

Lemma evaluate_perfect_predictions_witness :
  exists r,
    evaluate (fun _ : list nat => [1; 0; 1]%Z) [1; 2; 3]%nat [1; 0; 1]%Z
    = Ok r /\
    f1 r == 1 /\ precision r == 1 /\ recall r == 1.
Proof.
  apply (evaluate_perfect_predictions nat
           (fun _ : list nat => [1; 0; 1]%Z) [1; 2; 3]%nat [1; 0; 1]%Z).
  - reflexivity.
  - now left.
Defined.

Lemma always_positive_counts (df : dataframe) :
  let y := map tasty df in
  let y_pred := map (fun _ : list Q => 1%Z) (map features df) in
  true_positives y y_pred
  = length (filter (fun r => (tasty r =? 1)%Z) df) /\
  false_positives y y_pred
  = length (filter (fun r => negb (tasty r =? 1)%Z) df) /\
  false_negatives y y_pred = O.
Proof.
  cbv zeta. unfold true_positives, false_positives, false_negatives.
  induction df as [|r t (IH1 & IH2 & IH3)]; [repeat split|].
  cbn [map count_pairs filter]. rewrite IH1, IH2, IH3.
  destruct (tasty r =? 1)%Z; repeat split.
Qed.

(** X7.  The classifier that calls every wine tasty: on the features and labels
    of a frame its precision is the frame's class ratio, and its recall is
    1 as soon as the frame has a tasty row. *)
Theorem evaluate_always_positive (df : dataframe) (ratio : Q) :
  tasty_ratio df = Ok ratio ->
  let X := fst (to_features df) in
  let y := snd (to_features df) in
  exists r,
    evaluate (fun rows => map (fun _ => 1%Z) rows) X y = Ok r /\
    precision r = ratio /\
    (In 1%Z y -> recall r == 1).
Proof.
  intros Hratio. cbn [to_features fst snd].
  unfold evaluate, precision_score, recall_score, f1_score.
  rewrite MetricsFacts.check_consistent_length_ok
    by (now rewrite !length_map).
  cbn [bind].
  destruct (always_positive_counts df) as (Etp & Efp & Efn).
  cbv zeta in Etp, Efp, Efn. rewrite Etp, Efp, Efn.
  eexists. split; [reflexivity|]. cbn [precision recall].
  unfold tasty_ratio in Hratio.
  assert (0 < length df)%nat as Hd.
  { destruct (length df); [discriminate | lia]. }
  rewrite FrameMore.truediv_value in Hratio by exact Hd.
  injection Hratio as <-.
  rewrite filter_length. split.
  - destruct (length df); [lia | reflexivity].
  - intros Hpos. rewrite Nat.add_0_r. apply divide_self.
    apply in_map_iff in Hpos as (row & Ht & Hrow).
    assert (In row (filter (fun r => (tasty r =? 1)%Z) df)) as Hin
      by (apply filter_In; split; [exact Hrow | now apply Z.eqb_eq]).
    destruct (filter _ df); [destruct Hin | simpl; lia].
Qed.

Lemma evaluate_always_positive_witness :
  exists r,
    evaluate (fun rows : list (list Q) => map (fun _ => 1%Z) rows)
      [[1 # 2]; [1 # 3]; [1 # 4]] [1; 0; 0]%Z = Ok r /\
    precision r = 1 # 3 /\
    (In 1%Z [1; 0; 0]%Z -> recall r == 1).
Proof.
  apply (evaluate_always_positive
           [ {| features := [1 # 2]; tasty := 1 |};
             {| features := [1 # 3]; tasty := 0 |};
             {| features := [1 # 4]; tasty := 0 |} ] (1 # 3)).
  reflexivity.
Defined.

End MetricsMore.

(** ** From the scores to the estimate *)

Module ScoresFacts.

Import Metrics Scores.

Lemma shortest_of_triples (n : nat) (fprs : list FPR) :
  fold_right Nat.min n (map (@length Q) (map astuple fprs)) = Nat.min n 3
  \/ fprs = [].
Proof.
  induction fprs as [|r t IH]; [now right|]. left. cbn [map fold_right].
  destruct IH as [-> | ->]; cbn [map fold_right astuple length]; lia.
Qed.

Lemma split_scores_fields_aux (fprs : list FPR) :
  split_scores fprs =
  match fprs with
  | [] => Raise ValueError
  | _ :: _ => Ok (map f1 fprs, map precision fprs, map recall fprs)
  end.
Proof.
  destruct fprs as [|r t]; [reflexivity|].
  unfold split_scores, zip_star. cbn [map].
  destruct (shortest_of_triples (length (astuple r)) t) as [-> | ->].
  - cbn [astuple length Nat.min seq map unpack3 nth].
    rewrite !map_map. reflexivity.
  - reflexivity.
Qed.

Lemma split_scores_nonempty (fprs : list FPR) :
  fprs <> [] ->
  split_scores fprs = Ok (map f1 fprs, map precision fprs, map recall fprs).
Proof.
  intros Hne. rewrite split_scores_fields_aux.
  destruct fprs; [congruence | reflexivity].
Qed.

(** X8.  Unzipping the bootstrap results: a non-empty [fprs] is split into the
    three sequences of its f1, precision and recall fields, in this order
    and in the order of the iterations, each as long as [fprs]; an empty
    [fprs] is a ValueError (nothing to unpack into the three names). *)
Theorem split_scores_fields (fprs : list FPR) :
  (fprs = [] -> split_scores fprs = Raise ValueError) /\
  (fprs <> [] ->
   exists f1s precisions recalls,
     split_scores fprs = Ok (f1s, precisions, recalls) /\
     f1s = map f1 fprs /\ precisions = map precision fprs /\
     recalls = map recall fprs /\
     length f1s = length fprs /\ length precisions = length fprs /\
     length recalls = length fprs).
Proof.
  rewrite split_scores_fields_aux. split.
  - now intros ->.
  - intros Hne. destruct fprs as [|r t] eqn:E; [congruence|].
    rewrite <- E. do 3 eexists. split; [reflexivity|].
    now rewrite !length_map.
Qed.

Lemma split_scores_fields_witness :
  exists f1s precisions recalls,
    split_scores [ {| f1 := 1 # 2; precision := 1 # 3; recall := 1 |};
                   {| f1 := 3 # 5; precision := 1; recall := 3 # 7 |} ]
    = Ok (f1s, precisions, recalls) /\
    f1s = [1 # 2; 3 # 5] /\ precisions = [1 # 3; 1] /\
    recalls = [1; 3 # 7] /\
    length f1s = 2%nat /\ length precisions = 2%nat /\
    length recalls = 2%nat.
Proof.
  apply (split_scores_fields
           [ {| f1 := 1 # 2; precision := 1 # 3; recall := 1 |};
             {| f1 := 3 # 5; precision := 1; recall := 3 # 7 |} ]).
  discriminate.
Defined.

End ScoresFacts.

(** ** More on the bootstrap cell *)

Module BootstrapMore.

Import Metrics Bootstrap Scores.

Lemma map_result_length {A B} (f : A -> result B) (l : list A) (bs : list B) :
  map_result f l = Ok bs -> length bs = length l.
Proof.
  revert bs. induction l as [|a t IH]; intros bs H; simpl in H.
  - now injection H as <-.
  - destruct (f a) as [b|e]; [|discriminate]. cbn [bind] in H.
    destruct (map_result f t) as [bs'|e]; [|discriminate]. cbn [bind] in H.
    injection H as <-. simpl. now rewrite (IH bs').
Qed.

Lemma map_result_app {A B} (f : A -> result B) (l1 l2 : list A) :
  map_result f (l1 ++ l2)
  = (a <- map_result f l1 ;; b <- map_result f l2 ;; Ok (a ++ b)).
Proof.
  induction l1 as [|x t IH]; simpl.
  - destruct (map_result f l2); reflexivity.
  - destruct (f x) as [b|e]; cbn [bind]; [|reflexivity].
    rewrite IH. destruct (map_result f t) as [bs|e]; cbn [bind]; [|reflexivity].
    destruct (map_result f l2); reflexivity.
Qed.

(** Over [range(n)]: the run succeeds exactly when every index does, and
    it raises the error of the first index that raises. *)
Lemma map_result_range {B} (f : nat -> result B) (n : nat) :
  ((exists bs, map_result f (seq 0 n) = Ok bs) <->
   (forall j, (j < n)%nat -> is_ok (f j) = true)) /\
  (forall e, map_result f (seq 0 n) = Raise e <->
   exists i, (i < n)%nat /\ f i = Raise e /\
             forall j, (j < i)%nat -> is_ok (f j) = true).
Proof.
  induction n as [|n [IHok IHraise]].
  - split.
    + split; [intros _ j Hj; lia | intros _; now exists []].
    + intros e. split; [discriminate | intros (i & Hi & _); lia].
  - rewrite seq_S, map_result_app. cbn [Nat.add map_result].
    destruct (map_result f (seq 0 n)) as [bs|e0] eqn:En; cbn [bind].
    + assert (forall j, (j < n)%nat -> is_ok (f j) = true) as Hall
        by (apply IHok; now exists bs).
      destruct (f n) as [b|e1] eqn:Ef; cbn [bind].
      * split.
        { split; [|intros _; eexists; reflexivity].
          intros _ j Hj. destruct (Nat.eq_dec j n) as [->|NE];
            [now rewrite Ef | apply Hall; lia]. }
        intros e. split; [discriminate|].
        intros (i & Hi & Ei & _).
        destruct (Nat.eq_dec i n) as [->|NE]; [congruence|].
        assert (is_ok (f i) = true) as H by (apply Hall; lia).
        rewrite Ei in H. discriminate.
      * split.
        { split; [intros (bs' & H); discriminate|].
          intros H. specialize (H n (Nat.lt_succ_diag_r n)).
          rewrite Ef in H. discriminate. }
        intros e. split.
        { intros H. injection H as <-. exists n. repeat split; [lia | exact Ef | exact Hall]. }
        intros (i & Hi & Ei & Hbefore).
        destruct (Nat.lt_trichotomy i n) as [Hlt|[->|Hgt]]; [| congruence | lia].
        assert (is_ok (f i) = true) as H by (apply Hall; lia).
        rewrite Ei in H. discriminate.
    + destruct (proj1 (IHraise e0) eq_refl) as (i0 & Hi0 & Ei0 & Hb0).
      split.
      * split; [intros (bs' & H); discriminate|].
        intros H. specialize (H i0 (Nat.lt_lt_succ_r _ _ Hi0)).
        rewrite Ei0 in H. discriminate.
      * intros e. split.
        { intros H. injection H as <-. exists i0. repeat split; [lia | exact Ei0 | exact Hb0]. }
        intros (i & Hi & Ei & Hbefore). f_equal.
        destruct (Nat.lt_trichotomy i i0) as [Hlt|[->|Hgt]].
        -- specialize (Hb0 i Hlt). rewrite Ei in Hb0. discriminate.
        -- congruence.
        -- specialize (Hbefore i0 Hgt). rewrite Ei0 in Hbefore. discriminate.
Qed.

Lemma map_result_Forall {A B} (f : A -> result B) (P : B -> Prop)
    (l : list A) (bs : list B) :
  (forall a b, f a = Ok b -> P b) ->
  map_result f l = Ok bs -> Forall P bs.
Proof.
  intros HP. revert bs. induction l as [|a t IH]; intros bs H; simpl in H.
  - injection H as <-. constructor.
  - destruct (f a) as [b|e] eqn:Ea; [|discriminate]. cbn [bind] in H.
    destruct (map_result f t) as [bs'|e]; [|discriminate]. cbn [bind] in H.
    injection H as <-. constructor; [now apply (HP a) | now apply IH].
Qed.

Section Cell.

Variable X : Type.
Variable resample : list X -> list Z -> Z -> result (list X * list Z).
Variable fit : Z -> list X -> list Z -> result (classifier X).

Lemma bootstrap_unfolded (n : nat) (seed : Z) (nb : notebook X) :
  bootstrap X resample fit n seed nb
  = (pipe <- fit seed (X_train_val X nb) (y_train_val X nb) ;;
     rs <- map_result (score_of_iteration X resample seed pipe nb) (seq 0 n) ;;
     Ok (set_fprs X nb rs)).
Proof.
  unfold bootstrap.
  destruct (fit seed _ _) as [pipe|e]; cbn [bind]; [|reflexivity].
  rewrite BootstrapFacts.for_each_appends. reflexivity.
Qed.

Lemma score_of_iteration_unit (seed : Z) (pipe : classifier X)
    (nb : notebook X) (i : nat) (r : FPR) :
  score_of_iteration X resample seed pipe nb i = Ok r -> unit_fpr r.
Proof.
  unfold score_of_iteration.
  destruct (resample _ _ _) as [sample|e]; [|discriminate]. cbn [bind].
  apply MetricsMore.evaluate_ok_unit.
Qed.

End Cell.

(** X9.  A successful run leaves exactly [n_resamples] scores in [fprs] and
    changes no other name of the notebook. *)
Theorem bootstrap_leaves_n_scores
    (X : Type) (resample : list X -> list Z -> Z -> result (list X * list Z))
    (fit : Z -> list X -> list Z -> result (classifier X))
    (n : nat) (seed : Z) (nb nb' : notebook X) :
  bootstrap X resample fit n seed nb = Ok nb' ->
  length (fprs X nb') = n /\ same_inputs X nb nb'.
Proof.
  rewrite bootstrap_unfolded.
  destruct (fit seed _ _) as [pipe|e]; [|discriminate]. cbn [bind].
  destruct (map_result _ (seq 0 n)) as [rs|e] eqn:E; [|discriminate].
  cbn [bind]. intros H. injection H as <-.
  apply map_result_length in E. rewrite length_seq in E.
  split; [exact E | repeat split].
Qed.

Lemma bootstrap_leaves_n_scores_witness :
  exists nb',
    bootstrap nat Toy.resample Toy.fit 2 1337 Toy.nb = Ok nb' /\
    length (fprs nat nb') = 2%nat /\ same_inputs nat Toy.nb nb'.
Proof.
  eexists. split; [reflexivity|].
  apply (bootstrap_leaves_n_scores nat Toy.resample Toy.fit 2 1337 Toy.nb).
  reflexivity.
Defined.

(** X10.  The cell raises [e] exactly when the fit raises [e], or the fit
    succeeds and some iteration (its resampling or its evaluation) raises
    [e] after every earlier iteration has succeeded: the cell stops at the
    first failure and reports that error. *)
Theorem bootstrap_first_failure
    (X : Type) (resample : list X -> list Z -> Z -> result (list X * list Z))
    (fit : Z -> list X -> list Z -> result (classifier X))
    (n : nat) (seed : Z) (nb : notebook X) (e : exn) :
  bootstrap X resample fit n seed nb = Raise e <->
  fit seed (X_train_val X nb) (y_train_val X nb) = Raise e \/
  exists pipe i,
    fit seed (X_train_val X nb) (y_train_val X nb) = Ok pipe /\
    (i < n)%nat /\
    score_of_iteration X resample seed pipe nb i = Raise e /\
    forall j, (j < i)%nat ->
      is_ok (score_of_iteration X resample seed pipe nb j) = true.
Proof.
  rewrite bootstrap_unfolded.
  destruct (fit seed _ _) as [pipe|e0]; cbn [bind].
  - pose proof (proj2 (map_result_range
                         (score_of_iteration X resample seed pipe nb) n) e)
      as Hrange.
    split.
    + intros H. right. exists pipe.
      destruct (map_result _ (seq 0 n)) as [rs|e1]; cbn [bind] in H;
        [discriminate|].
      injection H as ->.
      destruct (proj1 Hrange eq_refl) as (i & Hi & Ei & Hbefore).
      exists i. repeat split; assumption.
    + intros [H|(pipe' & i & Epipe & Hi & Ei & Hbefore)]; [discriminate|].
      injection Epipe as <-.
      rewrite (proj2 Hrange); [reflexivity|].
      exists i. repeat split; assumption.
  - split.
    + intros H. injection H as ->. now left.
    + intros [H|(pipe' & i & Epipe & _)]; [now injection H as -> | discriminate].
Qed.

Lemma bootstrap_first_failure_witness :
  bootstrap nat Toy.resample Toy.fit 2 1337 Toy.nb_short = Raise ValueError.
Proof.
  apply (bootstrap_first_failure nat Toy.resample Toy.fit 2 1337
           Toy.nb_short ValueError).
  right. eexists. exists 0%nat.
  split; [reflexivity|]. split; [lia|]. split; [reflexivity|].
  intros j Hj. lia.
Defined.

(** X11.  The first [m] scores of a longer run are the scores of the run of [m]
    resamples: asking for more resamples changes none of the earlier
    ones. *)
Theorem bootstrap_scores_prefix
    (X : Type) (resample : list X -> list Z -> Z -> result (list X * list Z))
    (fit : Z -> list X -> list Z -> result (classifier X))
    (n m : nat) (seed : Z) (nb : notebook X) (scores : list FPR) :
  (m <= n)%nat ->
  bootstrap_scores X resample fit n seed nb = Ok scores ->
  bootstrap_scores X resample fit m seed nb = Ok (firstn m scores).
Proof.
  intros Hm. rewrite !BootstrapFacts.bootstrap_scores_by_iteration.
  destruct (fit seed _ _) as [pipe|e0]; [|discriminate]. cbn [bind].
  replace n with (m + (n - m))%nat at 1 by lia.
  rewrite seq_app, map_result_app.
  destruct (map_result _ (seq 0 m)) as [a|e] eqn:Ea; [|discriminate].
  cbn [bind].
  destruct (map_result _ (seq (0 + m) (n - m))) as [b|e]; [|discriminate].
  cbn [bind]. intros H. injection H as <-.
  apply map_result_length in Ea. rewrite length_seq in Ea.
  rewrite <- Ea, firstn_app, firstn_all, Nat.sub_diag. cbn [firstn].
  now rewrite app_nil_r.
Qed.

Lemma bootstrap_scores_prefix_witness :
  exists scores,
    bootstrap_scores nat Toy.resample Toy.fit 2 1337 Toy.nb = Ok scores /\
    bootstrap_scores nat Toy.resample Toy.fit 1 1337 Toy.nb
    = Ok (firstn 1 scores).
Proof.
  eexists. split; [reflexivity|].
  apply (bootstrap_scores_prefix nat Toy.resample Toy.fit 2 1 1337 Toy.nb).
  - lia.
  - reflexivity.
Defined.

(** X12.  Whenever the cell completes, every result it leaves in [fprs] has
    its f1, precision and recall between 0 and 1. *)
Theorem bootstrap_scores_in_unit_interval
    (X : Type) (resample : list X -> list Z -> Z -> result (list X * list Z))
    (fit : Z -> list X -> list Z -> result (classifier X))
    (n : nat) (seed : Z) (nb nb' : notebook X) :
  bootstrap X resample fit n seed nb = Ok nb' ->
  Forall unit_fpr (fprs X nb').
Proof.
  rewrite bootstrap_unfolded.
  destruct (fit seed _ _) as [pipe|e]; [|discriminate]. cbn [bind].
  destruct (map_result _ (seq 0 n)) as [rs|e] eqn:E; [|discriminate].
  cbn [bind]. intros H. injection H as <-. cbn [fprs set_fprs].
  apply (map_result_Forall _ unit_fpr _ _ (fun i r => score_of_iteration_unit
           X resample seed pipe nb i r) E).
Qed.

Lemma bootstrap_scores_in_unit_interval_witness :
  exists nb',
    bootstrap nat Toy.resample Toy.fit 3 1337 Toy.nb = Ok nb' /\
    Forall unit_fpr (fprs nat nb').
Proof.
  eexists. split; [reflexivity|].
  apply (bootstrap_scores_in_unit_interval nat Toy.resample Toy.fit 3 1337
           Toy.nb).
  reflexivity.
Defined.

End BootstrapMore.

(** ** More on the confidence interval *)

Module CIMore.

Import Numpy NumpyFacts CI Scores.

Lemma sort_Forall (P : Q -> Prop) (l : list Q) :
  Forall P l -> Forall P (sort l).
Proof.
  induction 1 as [|x t Hx Ht IH]; simpl; [constructor|].
  now apply insert_Forall.
Qed.

Lemma nth_Forall (P : Q -> Prop) (l : list Q) (i : nat) :
  Forall P l -> (i < length l)%nat -> P (nth i l 0).
Proof.
  intros H Hi. rewrite Forall_forall in H. now apply H, nth_In.
Qed.

(** Interpolating between order statistics stays within any bounds of the
    data. *)
Lemma interpolate_bounds (arr : list Q) (h a b : Q) :
  StronglySorted Qle arr -> Forall (fun x => a <= x /\ x <= b) arr ->
  0 <= h -> h <= inject_Z (Z.of_nat (length arr) - 1) ->
  a <= interpolate arr h /\ interpolate arr h <= b.
Proof.
  intros Hs Hall H0 Hn. unfold interpolate.
  destruct (floor_bounds h) as [L U].
  pose proof (floor_range h _ H0 Hn) as R.
  set (i := Qfloor h) in *. set (n := Z.of_nat (length arr)) in *.
  assert (nth (Z.to_nat i) arr 0
          <= nth (Z.to_nat (Z.min (i + 1) (n - 1))) arr 0) as Hstep
    by (apply sorted_nth; [exact Hs | subst n; lia]).
  destruct (nth_Forall _ arr (Z.to_nat i) Hall) as [A1 B1]; [subst n; lia|].
  destruct (nth_Forall _ arr (Z.to_nat (Z.min (i + 1) (n - 1))) Hall)
    as [A2 B2]; [subst n; lia|].
  split.
  - eapply Qle_trans; [exact A1|]. apply lerp_lower; [exact Hstep | lra].
  - eapply Qle_trans; [|exact B2]. apply lerp_upper; [exact Hstep | lra].
Qed.

Lemma percentile_bounds (s : list Q) (q a b p : Q) :
  Forall (fun x => a <= x /\ x <= b) s ->
  percentile s q = Ok p -> a <= p /\ p <= b.
Proof.
  intros Hall. unfold percentile.
  destruct (negb (Qle_bool 0 q && Qle_bool q 100)) eqn:E; [discriminate|].
  apply negb_false_iff, andb_prop in E as [E0 E1].
  apply Qle_bool_iff in E0, E1.
  destruct s as [|x t] eqn:Es; [discriminate|].
  rewrite <- Es in *. intros H. injection H as <-.
  assert (1 <= Z.of_nat (length (sort s)))%Z as Hn
    by (rewrite sort_length, Es; simpl; lia).
  destruct (virtual_index_bounds _ q Hn E0 E1) as [A B].
  apply interpolate_bounds; try assumption.
  - apply sort_sorted.
  - now apply sort_Forall.
Qed.

Lemma max_id (p : Q) : 0 <= p -> Py.max 0 p == p.
Proof.
  intros H. unfold Py.max, Qltb.
  destruct (Qle_bool p 0) eqn:E; simpl; [|reflexivity].
  apply Qle_bool_iff in E. lra.
Qed.

Lemma min_id (p : Q) : p <= 1 -> Py.min 1 p == p.
Proof.
  intros H. unfold Py.min, Qltb.
  destruct (Qle_bool 1 p) eqn:E; simpl; [|reflexivity].
  apply Qle_bool_iff in E. lra.
Qed.

Lemma levels_ordered (alpha : Q) :
  0 <= alpha -> alpha <= 1 ->
  0 <= ((1 - alpha) / 2) * 100 /\
  ((1 - alpha) / 2) * 100 <= (alpha + ((1 - alpha) / 2)) * 100 /\
  (alpha + ((1 - alpha) / 2)) * 100 <= 100.
Proof.
  intros H0 H1. rewrite CIFacts.top_p_eq, CIFacts.bottom_p_eq.
  repeat split; lra.
Qed.

Lemma interval_of_unit_scores_aux (scores : list Q) (alpha : Q) :
  scores <> [] -> unit_scores scores -> 0 <= alpha -> alpha <= 1 ->
  exists p p',
    percentile scores (((1 - alpha) / 2) * 100) = Ok p /\
    percentile scores ((alpha + ((1 - alpha) / 2)) * 100) = Ok p' /\
    Py.max 0 p == p /\ Py.min 1 p' == p' /\
    fst (run (confidence_intervals percentile {| f1s := Some scores |}
                scores alpha)) = Ok [Py.max 0 p; Py.min 1 p'].
Proof.
  intros Hne Hunit H0 H1.
  destruct (levels_ordered alpha H0 H1) as (A & B & C).
  destruct (percentile_mono scores (((1 - alpha) / 2) * 100)
              ((alpha + ((1 - alpha) / 2)) * 100) Hne A B C)
    as (p & p' & Ep & Ep' & Hpp).
  destruct (percentile_bounds _ _ 0 1 p Hunit Ep) as [P0 P1].
  destruct (percentile_bounds _ _ 0 1 p' Hunit Ep') as [P0' P1'].
  exists p, p'.
  rewrite CIFacts.run_confidence_intervals. cbv zeta. rewrite Ep, Ep'.
  repeat split; [now apply max_id | now apply min_id].
Qed.

(** X13.  For scores between 0 and 1 and a level between 0 and 1 (inclusive) the
    call returns a well-formed interval, [0 <= lower <= upper <= 1], and the
    clamping changes nothing: the bounds are the two percentiles. *)
Theorem interval_of_unit_scores (scores : list Q) (alpha : Q) :
  scores <> [] -> unit_scores scores -> 0 <= alpha -> alpha <= 1 ->
  exists lo hi p p',
    fst (run (confidence_intervals percentile {| f1s := Some scores |}
                scores alpha)) = Ok [lo; hi] /\
    percentile scores (((1 - alpha) / 2) * 100) = Ok p /\
    percentile scores ((alpha + ((1 - alpha) / 2)) * 100) = Ok p' /\
    lo == p /\ hi == p' /\
    0 <= lo /\ lo <= hi /\ hi <= 1.
Proof.
  intros Hne Hunit H0 H1.
  destruct (levels_ordered alpha H0 H1) as (A & B & C).
  destruct (percentile_mono scores (((1 - alpha) / 2) * 100)
              ((alpha + ((1 - alpha) / 2)) * 100) Hne A B C)
    as (p & p' & Ep & Ep' & Hpp).
  destruct (percentile_bounds _ _ 0 1 p Hunit Ep) as [P0 P1].
  destruct (percentile_bounds _ _ 0 1 p' Hunit Ep') as [P0' P1'].
  exists (Py.max 0 p), (Py.min 1 p'), p, p'.
  rewrite CIFacts.run_confidence_intervals. cbv zeta. rewrite Ep, Ep'.
  pose proof (max_id p P0). pose proof (min_id p' P1').
  repeat split; try assumption; try reflexivity; lra.
Qed.

Lemma interval_of_unit_scores_witness :
  exists lo hi p p',
    fst (run (confidence_intervals percentile
                {| f1s := Some [1 # 2; 3 # 5] |} [1 # 2; 3 # 5] (95 # 100)))
    = Ok [lo; hi] /\
    percentile [1 # 2; 3 # 5] (((1 - (95 # 100)) / 2) * 100) = Ok p /\
    percentile [1 # 2; 3 # 5] (((95 # 100) + ((1 - (95 # 100)) / 2)) * 100)
    = Ok p' /\
    lo == p /\ hi == p' /\
    0 <= lo /\ lo <= hi /\ hi <= 1.
Proof.
  apply (interval_of_unit_scores [1 # 2; 3 # 5] (95 # 100)).
  - discriminate.
  - repeat constructor; unfold Qle; simpl; lia.
  - unfold Qle; simpl; lia.
  - unfold Qle; simpl; lia.
Defined.

(** X14.  The level is not validated by the function: with a non-empty
    [f1s], every level between -1 and 1 is accepted and a tuple is
    returned, and a level beyond is reported as the ValueError that
    np.percentile raises for a percentile out of range. *)
Theorem level_accepted_or_rejected (scores d : list Q) (alpha : Q) :
  scores <> [] ->
  let out :=
    run (confidence_intervals percentile {| f1s := Some scores |} d alpha) in
  (- (1) <= alpha /\ alpha <= 1 -> is_ok (fst out) = true) /\
  (alpha < - (1) \/ 1 < alpha -> fst out = Raise ValueError).
Proof.
  intros Hne. cbv zeta. rewrite CIFacts.run_confidence_intervals. cbv zeta.
  split.
  - intros [H0 H1].
    rewrite !percentile_ok;
      try assumption; try (rewrite CIFacts.top_p_eq; lra);
      try (rewrite CIFacts.bottom_p_eq; lra).
    reflexivity.
  - intros H.
    assert (percentile scores (((1 - alpha) / 2) * 100) = Raise ValueError)
      as ->; [|reflexivity].
    unfold percentile.
    assert (negb (Qle_bool 0 (((1 - alpha) / 2) * 100)
                  && Qle_bool (((1 - alpha) / 2) * 100) 100) = true) as ->;
      [|reflexivity].
    apply negb_true_iff, andb_false_iff.
    destruct H as [H|H]; [right | left];
      (destruct (Qle_bool _ _) eqn:E; [|reflexivity]);
      apply Qle_bool_iff in E; rewrite CIFacts.top_p_eq in E; lra.
Qed.

Lemma level_accepted_or_rejected_witness :
  fst (run (confidence_intervals percentile {| f1s := Some [1 # 2] |}
              [1 # 2] 2)) = Raise ValueError.
Proof.
  apply (level_accepted_or_rejected [1 # 2] [1 # 2] 2).
  - discriminate.
  - right. reflexivity.
Defined.

(** X15.  The two percentiles asked of numpy are symmetric about the median and
    [100 * alpha] apart: the interval is the central one. *)
Theorem central_percentiles
    (P : list Q -> Q -> result Q) (scores d : list Q) (alpha : Q) :
  exists q1 q2,
    q1 + q2 == 100 /\ q2 - q1 == 100 * alpha /\
    (snd (run (confidence_intervals P {| f1s := Some scores |} d alpha))
     = [PercentileCall scores q1] \/
     snd (run (confidence_intervals P {| f1s := Some scores |} d alpha))
     = [PercentileCall scores q1; PercentileCall scores q2]).
Proof.
  exists (((1 - alpha) / 2) * 100), ((alpha + ((1 - alpha) / 2)) * 100).
  split; [rewrite CIFacts.top_p_eq, CIFacts.bottom_p_eq; ring|].
  split; [rewrite CIFacts.top_p_eq, CIFacts.bottom_p_eq; ring|].
  rewrite CIFacts.run_confidence_intervals. cbv zeta.
  destruct (P scores _); [|now left].
  destruct (P scores _); now right.
Qed.

(** *** The order of the scores *)

Lemma Forall2_Qeq_refl (l : list Q) : Forall2 Qeq l l.
Proof. induction l; constructor; [reflexivity | assumption]. Qed.

Lemma Forall2_Qeq_trans (l1 l2 l3 : list Q) :
  Forall2 Qeq l1 l2 -> Forall2 Qeq l2 l3 -> Forall2 Qeq l1 l3.
Proof.
  intros H. revert l3. induction H as [|a b t u Hab Htu IH]; intros l3 H';
    inversion H'; subst; constructor.
  - eapply Qeq_trans; eassumption.
  - now apply IH.
Qed.

Lemma insert_proper (x x' : Q) (l l' : list Q) :
  x == x' -> Forall2 Qeq l l' -> Forall2 Qeq (insert x l) (insert x' l').
Proof.
  intros Hx. induction 1 as [|y y' t t' Hy Ht IH]; simpl.
  - repeat constructor. exact Hx.
  - rewrite (Qleb_comp x x' Hx y y' Hy).
    destruct (Qle_bool x' y'); repeat constructor; assumption.
Qed.

Ltac order_facts :=
  repeat match goal with
         | H : Qle_bool _ _ = true |- _ => apply Qle_bool_iff in H
         | H : Qle_bool ?a ?b = false |- _ =>
             let HH := fresh in
             assert (b < a)
               by (apply Qnot_le_lt; intro HH; apply Qle_bool_iff in HH;
                   congruence);
             clear H
         end.

Ltac insert_cases :=
  repeat (simpl;
          match goal with
          | |- context [Qle_bool ?a ?b] => destruct (Qle_bool a b) eqn:?
          end);
  simpl; try congruence.

(** Inserting two scores in either order gives the same ordered list, up
    to the order of equal scores. *)
Lemma insert_swap (x y : Q) (l : list Q) :
  Forall2 Qeq (insert x (insert y l)) (insert y (insert x l)).
Proof.
  induction l as [|z t IH].
  - insert_cases; order_facts;
      repeat constructor; try reflexivity; lra.
  - insert_cases; order_facts;
      try (exfalso; lra);
      repeat (constructor; try reflexivity; try lra);
      try apply Forall2_Qeq_refl; try exact IH.
Qed.

Lemma sort_of_permutation (l l' : list Q) :
  Permutation l l' -> Forall2 Qeq (sort l) (sort l').
Proof.
  induction 1 as [|a l l' H IH|a b l|l l' l'' H1 IH1 H2 IH2]; simpl.
  - constructor.
  - apply insert_proper; [reflexivity | exact IH].
  - apply insert_swap.
  - eapply Forall2_Qeq_trans; eassumption.
Qed.

Lemma nth_proper (l l' : list Q) (i : nat) :
  Forall2 Qeq l l' -> nth i l 0 == nth i l' 0.
Proof.
  intros H. revert i. induction H as [|a b t u Hab Htu IH]; intros [|i];
    simpl; try reflexivity; [exact Hab | apply IH].
Qed.

Lemma lerp_proper (a a' b b' t t' : Q) :
  a == a' -> b == b' -> t == t' -> lerp a b t == lerp a' b' t'.
Proof. intros Ha Hb Ht. unfold lerp. now rewrite Ha, Hb, Ht. Qed.

Lemma interpolate_proper (arr arr' : list Q) (h h' : Q) :
  Forall2 Qeq arr arr' -> h == h' ->
  interpolate arr h == interpolate arr' h'.
Proof.
  intros Harr Hh. unfold interpolate.
  rewrite <- (Forall2_length Harr), <- (Qfloor_comp h h' Hh).
  apply lerp_proper; try (apply nth_proper; exact Harr).
  unfold Qminus. apply Qplus_comp; [exact Hh | reflexivity].
Qed.

Lemma percentile_proper (a a' : list Q) (q q' : Q) :
  Forall2 Qeq (sort a) (sort a') -> q == q' ->
  same_value (percentile a q) (percentile a' q').
Proof.
  intros Hs Hq. unfold percentile.
  rewrite (Qleb_comp 0 0 (Qeq_refl 0) q q' Hq).
  rewrite (Qleb_comp q q' Hq 100 100 (Qeq_refl 100)).
  destruct (negb _); [reflexivity|].
  pose proof (Forall2_length Hs) as Hlen. rewrite !sort_length in Hlen.
  destruct a as [|x t], a' as [|x' t']; try discriminate; [reflexivity|].
  cbn [same_value]. apply interpolate_proper; [exact Hs|].
  rewrite (Forall2_length Hs). now rewrite Hq.
Qed.

Lemma max_proper (p p' : Q) : p == p' -> Py.max 0 p == Py.max 0 p'.
Proof.
  intros H. unfold Py.max, Qltb.
  rewrite (Qleb_comp p p' H 0 0 (Qeq_refl 0)).
  destruct (Qle_bool p' 0); simpl; [reflexivity | exact H].
Qed.

Lemma min_proper (p p' : Q) : p == p' -> Py.min 1 p == Py.min 1 p'.
Proof.
  intros H. unfold Py.min, Qltb.
  rewrite (Qleb_comp 1 1 (Qeq_refl 1) p p' H).
  destruct (Qle_bool 1 p'); simpl; [reflexivity | exact H].
Qed.

(** X16.  The interval depends on the scores only as a collection: listing the
    same scores in another order gives the same outcome, with bounds equal
    as numbers. *)
Theorem interval_ignores_score_order (scores scores' d : list Q) (alpha : Q) :
  Permutation scores scores' ->
  same_bounds
    (fst (run (confidence_intervals percentile {| f1s := Some scores |} d
                 alpha)))
    (fst (run (confidence_intervals percentile {| f1s := Some scores' |} d
                 alpha))).
Proof.
  intros Hperm. pose proof (sort_of_permutation _ _ Hperm) as Hs.
  rewrite !CIFacts.run_confidence_intervals. cbv zeta.
  pose proof (percentile_proper scores scores' _ _ Hs
                (Qeq_refl (((1 - alpha) / 2) * 100))) as Ht.
  pose proof (percentile_proper scores scores' _ _ Hs
                (Qeq_refl ((alpha + ((1 - alpha) / 2)) * 100))) as Hb.
  destruct (percentile scores (((1 - alpha) / 2) * 100)) as [p|e],
           (percentile scores' (((1 - alpha) / 2) * 100)) as [p1|e1];
    cbn [same_value] in Ht; try contradiction; [|exact Ht].
  destruct (percentile scores ((alpha + ((1 - alpha) / 2)) * 100)) as [p'|e'],
           (percentile scores' ((alpha + ((1 - alpha) / 2)) * 100))
             as [p1'|e1'];
    cbn [same_value] in Hb; try contradiction; [|exact Hb].
  cbn [fst same_bounds].
  repeat constructor; [now apply max_proper | now apply min_proper].
Qed.

Lemma interval_ignores_score_order_witness :
  same_bounds
    (fst (run (confidence_intervals percentile
                 {| f1s := Some [3 # 5; 1 # 2] |} [] (95 # 100))))
    (fst (run (confidence_intervals percentile
                 {| f1s := Some [1 # 2; 3 # 5] |} [] (95 # 100)))).
Proof.
  apply (interval_ignores_score_order [3 # 5; 1 # 2] [1 # 2; 3 # 5] []
           (95 # 100)).
  apply perm_swap.
Defined.

(** *** The extreme levels *)

Lemma insert_permutation (x : Q) (l : list Q) :
  Permutation (insert x l) (x :: l).
Proof.
  induction l as [|y t IH]; simpl; [reflexivity|].
  destruct (Qle_bool x y); [reflexivity|].
  rewrite IH. apply perm_swap.
Qed.

Lemma sort_permutation (l : list Q) : Permutation (sort l) l.
Proof.
  induction l as [|x t IH]; simpl; [constructor|].
  rewrite insert_permutation. now constructor.
Qed.

(** At a whole index the interpolation is the order statistic itself. *)
Lemma interpolate_at_index (arr : list Q) (m : Z) :
  interpolate arr (inject_Z m) == nth (Z.to_nat m) arr 0.
Proof.
  unfold interpolate, lerp. rewrite Qfloor_Z.
  setoid_replace (inject_Z m - inject_Z m) with 0 by ring. ring.
Qed.

Lemma order_statistics_cover (s : list Q) (x : Q) :
  In x s ->
  nth 0 (sort s) 0 <= x /\ x <= nth (length (sort s) - 1) (sort s) 0.
Proof.
  intros Hx.
  apply (Permutation_in _ (Permutation_sym (sort_permutation s))) in Hx.
  destruct (In_nth _ _ 0 Hx) as (j & Hj & <-).
  split; apply sorted_nth; try apply sort_sorted; lia.
Qed.

(** X17.  At level 1 the interval of scores between 0 and 1 runs from the
    smallest to the largest score, so it contains every score; at level 0
    it is a single point, the median. *)
Theorem extreme_levels (scores : list Q) :
  scores <> [] -> unit_scores scores ->
  (exists lo hi,
     fst (run (confidence_intervals percentile {| f1s := Some scores |}
                 scores 1)) = Ok [lo; hi] /\
     forall x, In x scores -> lo <= x /\ x <= hi) /\
  (exists lo hi,
     fst (run (confidence_intervals percentile {| f1s := Some scores |}
                 scores 0)) = Ok [lo; hi] /\
     lo == hi).
Proof.
  intros Hne Hunit.
  assert (1 <= Z.of_nat (length (sort scores)))%Z as Hn.
  { rewrite sort_length. destruct scores; [congruence | simpl; lia]. }
  split.
  - destruct (interval_of_unit_scores_aux scores 1 Hne Hunit)
      as (p & p' & Ep & Ep' & Hlo & Hhi & Hrun); [lra | lra |].
    exists (Py.max 0 p), (Py.min 1 p'). split; [exact Hrun|].
    rewrite percentile_ok in Ep, Ep' by (assumption || reflexivity
                                         || (unfold Qle; simpl; lia)).
    injection Ep as Ep. injection Ep' as Ep'.
    assert (p == nth 0 (sort scores) 0) as Hp.
    { rewrite <- Ep.
      rewrite (interpolate_proper (sort scores) (sort scores) _ (inject_Z 0)
                 (Forall2_Qeq_refl _)).
      - apply interpolate_at_index.
      - rewrite CIFacts.top_p_eq, div_100. change (inject_Z 0) with 0. ring. }
    assert (p' == nth (length (sort scores) - 1) (sort scores) 0) as Hp'.
    { rewrite <- Ep'.
      rewrite (interpolate_proper (sort scores) (sort scores) _
                 (inject_Z (Z.of_nat (length (sort scores)) - 1))
                 (Forall2_Qeq_refl _)).
      - rewrite interpolate_at_index.
        replace (Z.to_nat (Z.of_nat (length (sort scores)) - 1))
          with (length (sort scores) - 1)%nat by lia.
        reflexivity.
      - rewrite CIFacts.bottom_p_eq, div_100. ring. }
    intros x Hx. destruct (order_statistics_cover scores x Hx) as [A B].
    rewrite Hlo, Hhi, Hp, Hp'. split; assumption.
  - destruct (interval_of_unit_scores_aux scores 0 Hne Hunit)
      as (p & p' & Ep & Ep' & Hlo & Hhi & Hrun); [lra | lra |].
    exists (Py.max 0 p), (Py.min 1 p'). split; [exact Hrun|].
    rewrite Hlo, Hhi.
    pose proof (percentile_proper scores scores
                  (((1 - 0) / 2) * 100) ((0 + ((1 - 0) / 2)) * 100)
                  (Forall2_Qeq_refl _)) as H.
    rewrite Ep, Ep' in H. apply H. reflexivity.
Qed.

Lemma extreme_levels_witness :
  exists lo hi,
    fst (run (confidence_intervals percentile
                {| f1s := Some [3 # 5; 1 # 2; 7 # 10] |}
                [3 # 5; 1 # 2; 7 # 10] 1)) = Ok [lo; hi] /\
    forall x, In x [3 # 5; 1 # 2; 7 # 10] -> lo <= x /\ x <= hi.
Proof.
  apply (extreme_levels [3 # 5; 1 # 2; 7 # 10]).
  - discriminate.
  - repeat constructor; unfold Qle; simpl; lia.
Defined.

End CIMore.

(** ** From the bootstrap to the printed estimate *)

Module EstimateFacts.

Import Numpy NumpyFacts CI Metrics Bootstrap Scores.

Lemma sum_of_unit_scores (l : list Q) :
  unit_scores l ->
  0 <= fold_right Qplus 0 l /\
  fold_right Qplus 0 l <= inject_Z (Z.of_nat (length l)).
Proof.
  induction 1 as [|x t [Hx0 Hx1] Ht [IH0 IH1]].
  - simpl. change (inject_Z 0) with 0. split; lra.
  - cbn [fold_right length]. rewrite SplitterFacts.of_nat_succ. split; lra.
Qed.

(** The mean of scores between 0 and 1 is between 0 and 1. *)
Lemma mean_of_unit_scores (l : list Q) :
  l <> [] -> unit_scores l ->
  exists m, mean l = Ok m /\ 0 <= m /\ m <= 1.
Proof.
  intros Hne Hunit. destruct (sum_of_unit_scores l Hunit) as [S0 S1].
  destruct l as [|x t] eqn:E; [congruence|]. rewrite <- E in *.
  exists (fold_right Qplus 0 l / inject_Z (Z.of_nat (length l))).
  assert (0 < inject_Z (Z.of_nat (length l))) as Hn.
  { change 0 with (inject_Z 0). rewrite <- Zlt_Qlt. rewrite E. simpl. lia. }
  split; [rewrite E; reflexivity|]. split.
  - apply Qle_shift_div_l; [exact Hn | lra].
  - apply Qle_shift_div_r; [exact Hn | lra].
Qed.

Lemma unit_fields (fprs : list FPR) :
  Forall unit_fpr fprs ->
  unit_scores (map f1 fprs) /\ unit_scores (map precision fprs) /\
  unit_scores (map recall fprs).
Proof.
  unfold unit_scores. rewrite !Forall_map.
  intros H. repeat split; eapply Forall_impl; try exact H;
    intros r (Hf & Hp & Hr); assumption.
Qed.

Lemma estimate_of_unit_scores (fprs : list FPR) :
  fprs <> [] -> Forall unit_fpr fprs ->
  exists m lo hi,
    estimate percentile fprs = Ok (m, lo, hi) /\
    mean (map f1 fprs) = Ok m /\
    0 <= m /\ m <= 1 /\ 0 <= lo /\ lo <= hi /\ hi <= 1.
Proof.
  intros Hne Hunit.
  destruct (unit_fields fprs Hunit) as (Hf & _ & _).
  assert (map f1 fprs <> []) as Hne' by (destruct fprs; [congruence | discriminate]).
  destruct (CIFacts.report_cell_prints (map f1 fprs) Hne')
    as (m & p & p' & Em & Ep & Ep' & Hreport).
  destruct (mean_of_unit_scores _ Hne' Hf) as (m' & Em' & M0 & M1).
  rewrite Em in Em'. injection Em' as <-.
  destruct (percentile_mono (map f1 fprs) _ _ Hne'
              (proj1 (CIMore.levels_ordered (95 # 100) ltac:(lra) ltac:(lra)))
              (proj1 (proj2 (CIMore.levels_ordered (95 # 100)
                               ltac:(lra) ltac:(lra))))
              (proj2 (proj2 (CIMore.levels_ordered (95 # 100)
                               ltac:(lra) ltac:(lra)))))
    as (q & q' & Eq & Eq' & Hqq).
  rewrite Ep in Eq. rewrite Ep' in Eq'. injection Eq as <-. injection Eq' as <-.
  destruct (CIMore.percentile_bounds _ _ 0 1 p Hf Ep) as [P0 P1].
  destruct (CIMore.percentile_bounds _ _ 0 1 p' Hf Ep') as [P0' P1'].
  exists m, (Py.max 0 p), (Py.min 1 p').
  unfold estimate. rewrite (ScoresFacts.split_scores_nonempty fprs Hne).
  cbn [bind fst]. split; [exact Hreport|].
  pose proof (CIMore.max_id p P0). pose proof (CIMore.min_id p' P1').
  repeat split; try assumption; lra.
Qed.

(** X18.  The plotting and printing cells on bootstrap results whose scores lie
    between 0 and 1: the printed estimate is the mean of the f1 scores,
    the interval is well formed, [0 <= lower <= upper <= 1], and the
    estimate is also between 0 and 1.  With no result at all the cells
    raise a ValueError. *)
Theorem estimate_within_unit_interval (fprs : list FPR) :
  (fprs <> [] -> Forall unit_fpr fprs ->
   exists m lo hi,
     estimate percentile fprs = Ok (m, lo, hi) /\
     mean (map f1 fprs) = Ok m /\
     0 <= m /\ m <= 1 /\ 0 <= lo /\ lo <= hi /\ hi <= 1) /\
  (fprs = [] -> estimate percentile fprs = Raise ValueError).
Proof.
  split; [apply estimate_of_unit_scores | now intros ->].
Qed.

Lemma estimate_within_unit_interval_witness :
  exists m lo hi,
    estimate percentile
      [ {| f1 := 1 # 2; precision := 1 # 2; recall := 1 # 2 |};
        {| f1 := 3 # 5; precision := 1; recall := 3 # 7 |} ]
    = Ok (m, lo, hi) /\
    mean (map f1 [ {| f1 := 1 # 2; precision := 1 # 2; recall := 1 # 2 |};
                   {| f1 := 3 # 5; precision := 1; recall := 3 # 7 |} ])
    = Ok m /\
    0 <= m /\ m <= 1 /\ 0 <= lo /\ lo <= hi /\ hi <= 1.
Proof.
  apply (estimate_within_unit_interval
           [ {| f1 := 1 # 2; precision := 1 # 2; recall := 1 # 2 |};
             {| f1 := 3 # 5; precision := 1; recall := 3 # 7 |} ]).
  - discriminate.
  - repeat constructor; unfold Qle; simpl; lia.
Defined.

(** X19.  The last cell prints the means of the three score sequences; for
    results with scores between 0 and 1 the three means are between 0 and
    1, and the f1 mean is the estimate that the interval cell prints. *)
Theorem final_metrics_are_means (fprs : list FPR) :
  fprs <> [] -> Forall unit_fpr fprs ->
  exists r,
    final_metrics fprs = Ok r /\
    mean (map f1 fprs) = Ok (f1 r) /\
    mean (map precision fprs) = Ok (precision r) /\
    mean (map recall fprs) = Ok (recall r) /\
    unit_fpr r.
Proof.
  intros Hne Hunit.
  destruct (unit_fields fprs Hunit) as (Hf & Hp & Hr).
  assert (forall g : FPR -> Q, map g fprs <> []) as Hne'
    by (intros g; destruct fprs; [congruence | discriminate]).
  destruct (mean_of_unit_scores _ (Hne' f1) Hf) as (mf & Ef & F0 & F1).
  destruct (mean_of_unit_scores _ (Hne' precision) Hp) as (mp & Ep & P0 & P1).
  destruct (mean_of_unit_scores _ (Hne' recall) Hr) as (mr & Er & R0 & R1).
  exists {| f1 := mf; precision := mp; recall := mr |}.
  unfold final_metrics. rewrite (ScoresFacts.split_scores_nonempty fprs Hne).
  cbn [bind fst snd]. rewrite Ef, Ep, Er. cbn [bind f1 precision recall].
  repeat split; assumption.
Qed.

Lemma final_metrics_are_means_witness :
  exists r,
    final_metrics
      [ {| f1 := 1 # 2; precision := 1 # 2; recall := 1 # 2 |};
        {| f1 := 3 # 5; precision := 1; recall := 3 # 7 |} ] = Ok r /\
    mean [1 # 2; 3 # 5] = Ok (f1 r) /\
    mean [1 # 2; 1] = Ok (precision r) /\
    mean [1 # 2; 3 # 7] = Ok (recall r) /\
    unit_fpr r.
Proof.
  apply (final_metrics_are_means
           [ {| f1 := 1 # 2; precision := 1 # 2; recall := 1 # 2 |};
             {| f1 := 3 # 5; precision := 1; recall := 3 # 7 |} ]).
  - discriminate.
  - repeat constructor; unfold Qle; simpl; lia.
Defined.

(** X20.  The three cells in a row.  Whenever a bootstrap of at least one
    resample completes, the plotting and printing cells that follow raise
    nothing and print an estimate between 0 and 1 and an interval with
    [0 <= lower <= upper <= 1]. *)
Theorem bootstrap_then_estimate
    (X : Type) (resample : list X -> list Z -> Z -> result (list X * list Z))
    (fit : Z -> list X -> list Z -> result (classifier X))
    (n : nat) (seed : Z) (nb nb' : notebook X) :
  (0 < n)%nat ->
  bootstrap X resample fit n seed nb = Ok nb' ->
  exists m lo hi,
    estimate percentile (fprs X nb') = Ok (m, lo, hi) /\
    0 <= m /\ m <= 1 /\ 0 <= lo /\ lo <= hi /\ hi <= 1.
Proof.
  intros Hn. rewrite BootstrapMore.bootstrap_unfolded.
  destruct (fit seed _ _) as [pipe|e]; [|discriminate]. cbn [bind].
  destruct (map_result _ (seq 0 n)) as [rs|e] eqn:E; [|discriminate].
  cbn [bind]. intros H. injection H as <-. cbn [fprs set_fprs].
  assert (Forall unit_fpr rs) as Hunit.
  { apply (BootstrapMore.map_result_Forall _ unit_fpr _ _
             (fun i r => BootstrapMore.score_of_iteration_unit
                           X resample seed pipe nb i r) E). }
  assert (length rs = n) as Hcount.
  { apply BootstrapMore.map_result_length in E.
    now rewrite length_seq in E. }
  destruct (estimate_of_unit_scores rs) as (m & lo & hi & He & _ & Hb);
    [|exact Hunit|].
  { intros E0. rewrite E0 in Hcount. simpl in Hcount. lia. }
  exists m, lo, hi. split; [exact He | exact Hb].
Qed.

Lemma bootstrap_then_estimate_witness :
  exists nb' m lo hi,
    bootstrap nat Toy.resample Toy.fit 3 1337 Toy.nb = Ok nb' /\
    estimate percentile (fprs nat nb') = Ok (m, lo, hi) /\
    0 <= m /\ m <= 1 /\ 0 <= lo /\ lo <= hi /\ hi <= 1.
Proof.
  eexists.
  assert (bootstrap nat Toy.resample Toy.fit 3 1337 Toy.nb = Ok _) as Hrun
    by reflexivity.
  destruct (bootstrap_then_estimate nat Toy.resample Toy.fit 3 1337 Toy.nb _
              ltac:(lia) Hrun) as (m & lo & hi & H).
  exists m, lo, hi. split; [exact Hrun | exact H].
Defined.

End EstimateFacts.

(** ** The cross-validation loops *)

Module FoldsFacts.

Import Arrays Folds.

Lemma take_in_range {A} (d : A) (a : list A) (positions : list nat) :
  Forall (fun i => (i < length a)%nat) positions ->
  take a positions = Ok (map (fun i => nth i a d) positions).
Proof.
  induction 1 as [|i t Hi Ht IH]; simpl; [reflexivity|].
  rewrite (nth_error_nth' a d Hi), IH. reflexivity.
Qed.

Lemma take_out_of_range {A} (a : list A) (positions : list nat) :
  Exists (fun i => (length a <= i)%nat) positions ->
  take a positions = Raise IndexError.
Proof.
  induction 1 as [i t Hi|i t Ht IH]; simpl.
  - apply nth_error_None in Hi. now rewrite Hi.
  - destruct (nth_error a i); [|reflexivity]. now rewrite IH.
Qed.

Lemma np_sum_app (l1 l2 : list Z) :
  np_sum (l1 ++ l2) = (np_sum l1 + np_sum l2)%Z.
Proof.
  induction l1 as [|x t IH]; simpl; [reflexivity|].
  unfold np_sum in *. simpl. rewrite IH. lia.
Qed.

Lemma np_sum_permutation (l l' : list Z) :
  Permutation l l' -> np_sum l = np_sum l'.
Proof.
  unfold np_sum.
  induction 1 as [|a l l' H IH|a b l|l l' l'' H1 IH1 H2 IH2]; simpl; lia.
Qed.

Lemma in_range_of_permutation (l : list nat) (n : nat) :
  Permutation l (seq 0 n) -> Forall (fun i => (i < n)%nat) l.
Proof.
  intros H. apply Forall_forall. intros i Hi.
  apply (Permutation_in _ H) in Hi. apply in_seq in Hi. lia.
Qed.

Section Loop.

Variable X : Type.
Variable X_train_val : list X.
Variable y_train_val : list Z.
Hypothesis same_length : length X_train_val = length y_train_val.

Lemma fold_body_in_range (fold : list nat * list nat) :
  Forall (fun i => (i < length y_train_val)%nat) (fst fold ++ snd fold) ->
  fold_body X_train_val y_train_val fold = Ok (line_of y_train_val fold).
Proof.
  intros H. apply Forall_app in H as [Ht Hv].
  unfold fold_body, line_of.
  destruct X_train_val as [|x0 xs] eqn:EX.
  - assert (length y_train_val = O) as E0 by (rewrite <- same_length; reflexivity).
    rewrite E0 in Ht, Hv.
    destruct (fst fold) as [|i t]; [|inversion Ht; lia].
    destruct (snd fold) as [|j u]; [|inversion Hv; lia].
    reflexivity.
  - rewrite <- EX in *.
    rewrite (take_in_range x0 X_train_val (fst fold)) by (now rewrite same_length).
    rewrite (take_in_range 0%Z y_train_val (fst fold)) by exact Ht.
    rewrite (take_in_range x0 X_train_val (snd fold)) by (now rewrite same_length).
    rewrite (take_in_range 0%Z y_train_val (snd fold)) by exact Hv.
    cbn [bind]. now rewrite !length_map.
Qed.

Lemma fold_body_out_of_range (fold : list nat * list nat) :
  Exists (fun i => (length y_train_val <= i)%nat) (fst fold ++ snd fold) ->
  fold_body X_train_val y_train_val fold = Raise IndexError.
Proof.
  intros H. unfold fold_body.
  destruct (take X_train_val (fst fold)) as [a|e] eqn:E1; cbn [bind].
  - destruct (take y_train_val (fst fold)) as [b|e] eqn:E2; cbn [bind].
    + apply Exists_app in H as [H|H].
      * rewrite (take_out_of_range y_train_val _ H) in E2. discriminate.
      * rewrite (take_out_of_range X_train_val (snd fold))
          by (now rewrite same_length).
        reflexivity.
    + destruct (Exists_dec (fun i => (length y_train_val <= i)%nat)
                  (fst fold) (fun i => le_dec _ _)) as [Hex|Hno].
      * rewrite (take_out_of_range _ _ Hex) in E2. congruence.
      * apply Forall_Exists_neg in Hno.
        rewrite (take_in_range 0%Z y_train_val (fst fold)) in E2;
          [discriminate|].
        eapply Forall_impl; [|exact Hno]. cbn beta. intros i Hi. lia.
  - destruct (Exists_dec (fun i => (length X_train_val <= i)%nat)
                (fst fold) (fun i => le_dec _ _)) as [Hex|Hno].
    + rewrite (take_out_of_range _ _ Hex) in E1. congruence.
    + apply Forall_Exists_neg in Hno.
      destruct X_train_val as [|x0 xs] eqn:EX.
      * destruct (fst fold); [discriminate|].
        inversion Hno; subst. simpl in *. lia.
      * rewrite <- EX in *.
        rewrite (take_in_range x0 X_train_val (fst fold)) in E1;
          [discriminate|].
        eapply Forall_impl; [|exact Hno]. cbn beta. intros i Hi. lia.
Qed.

Lemma fold_loop_in_range (folds : list (list nat * list nat))
    (printed : list fold_line) :
  Forall (fun fold =>
            Forall (fun i => (i < length y_train_val)%nat)
                   (fst fold ++ snd fold)) folds ->
  fold_loop X_train_val y_train_val folds printed
  = (printed ++ map (line_of y_train_val) folds, None).
Proof.
  intros H. revert printed.
  induction H as [|fold rest Hf Hrest IH]; intros printed; simpl.
  - now rewrite app_nil_r.
  - rewrite (fold_body_in_range fold Hf), IH, <- app_assoc. reflexivity.
Qed.

End Loop.

(** X21.  With folds that each split the indices of the data into a training
    and a validation part, the loop raises nothing and prints one line per
    fold, and on every line the two sizes add up to the size of the
    data. *)
Theorem fold_loop_sizes
    (X : Type) (X_train_val : list X) (y_train_val : list Z)
    (folds : list (list nat * list nat)) :
  length X_train_val = length y_train_val ->
  Forall (fun fold =>
            Permutation (fst fold ++ snd fold) (seq 0 (length y_train_val)))
         folds ->
  exists lines,
    fold_loop X_train_val y_train_val folds [] = (lines, None) /\
    length lines = length folds /\
    Forall (fun line =>
              (train_size line + val_size line)%nat = length y_train_val)
           lines.
Proof.
  intros Hlen Hfolds.
  exists (map (line_of y_train_val) folds). split; [|split].
  - rewrite (fold_loop_in_range X X_train_val y_train_val Hlen); [reflexivity|].
    eapply Forall_impl; [|exact Hfolds]. cbn beta.
    intros fold. apply in_range_of_permutation.
  - apply length_map.
  - rewrite Forall_map. eapply Forall_impl; [|exact Hfolds]. cbn beta.
    intros fold H. cbn [line_of train_size val_size].
    rewrite <- length_app, (Permutation_length H). apply length_seq.
Qed.

Lemma fold_loop_sizes_witness :
  exists lines,
    fold_loop [10; 20; 30]%nat [1; 0; 1]%Z
      [([1; 2], [0]); ([0; 2], [1]); ([0; 1], [2])]%nat [] = (lines, None) /\
    length lines = 3%nat /\
    Forall (fun line => (train_size line + val_size line)%nat = 3%nat) lines.
Proof.
  apply (fold_loop_sizes nat [10; 20; 30]%nat [1; 0; 1]%Z
           [([1; 2], [0]); ([0; 2], [1]); ([0; 1], [2])]%nat).
  - reflexivity.
  - constructor; [|constructor; [|constructor; [|constructor]]];
      cbn [fst snd app length seq].
    + eapply perm_trans; [apply perm_skip, perm_swap | apply perm_swap].
    + apply perm_skip. apply perm_swap.
    + apply Permutation_refl.
Defined.

(** X22.  When moreover the validation parts together are the indices of the
    data, each once, the validation sizes printed add up to the size of the
    data and the positive counts printed add up to the number of positives
    of the data, [y_train_val.sum()]. *)
Theorem fold_loop_totals
    (X : Type) (X_train_val : list X) (y_train_val : list Z)
    (folds : list (list nat * list nat)) :
  length X_train_val = length y_train_val ->
  Forall (fun fold =>
            Permutation (fst fold ++ snd fold) (seq 0 (length y_train_val)))
         folds ->
  Permutation (concat (map snd folds)) (seq 0 (length y_train_val)) ->
  exists lines,
    fold_loop X_train_val y_train_val folds [] = (lines, None) /\
    list_sum (map val_size lines) = length y_train_val /\
    np_sum (map val_positives lines) = np_sum y_train_val.
Proof.
  intros Hlen Hfolds Hvals.
  exists (map (line_of y_train_val) folds). split; [|split].
  - rewrite (fold_loop_in_range X X_train_val y_train_val Hlen); [reflexivity|].
    eapply Forall_impl; [|exact Hfolds]. cbn beta.
    intros fold. apply in_range_of_permutation.
  - rewrite map_map. cbn [line_of val_size].
    transitivity (length (concat (map snd folds))).
    + rewrite length_concat, map_map. reflexivity.
    + rewrite (Permutation_length Hvals). apply length_seq.
  - rewrite map_map. cbn [line_of val_positives].
    transitivity
      (np_sum (map (fun i => nth i y_train_val 0%Z) (concat (map snd folds)))).
    + clear. induction folds as [|fold rest IH]; [reflexivity|].
      cbn [map concat]. rewrite map_app, np_sum_app, <- IH. reflexivity.
    + rewrite (np_sum_permutation _ _
                 (Permutation_map (fun i => nth i y_train_val 0%Z) Hvals)).
      now rewrite SplitterFacts.map_nth_seq.
Qed.

Lemma fold_loop_totals_witness :
  exists lines,
    fold_loop [10; 20; 30]%nat [1; 0; 1]%Z
      [([1; 2], [0]); ([0; 2], [1]); ([0; 1], [2])]%nat [] = (lines, None) /\
    list_sum (map val_size lines) = 3%nat /\
    np_sum (map val_positives lines) = np_sum [1; 0; 1]%Z.
Proof.
  apply (fold_loop_totals nat [10; 20; 30]%nat [1; 0; 1]%Z
           [([1; 2], [0]); ([0; 2], [1]); ([0; 1], [2])]%nat).
  - reflexivity.
  - constructor; [|constructor; [|constructor; [|constructor]]];
      cbn [fst snd app length seq].
    + eapply perm_trans; [apply perm_skip, perm_swap | apply perm_swap].
    + apply perm_skip. apply perm_swap.
    + apply Permutation_refl.
  - apply Permutation_refl.
Defined.

(** X23.  An index past the end of the data stops the loop with an IndexError
    at the first fold that has one; the lines of the folds before it have
    been printed. *)
Theorem fold_loop_index_error
    (X : Type) (X_train_val : list X) (y_train_val : list Z)
    (before after : list (list nat * list nat))
    (fold : list nat * list nat) :
  length X_train_val = length y_train_val ->
  Forall (fun fd =>
            Forall (fun i => (i < length y_train_val)%nat)
                   (fst fd ++ snd fd)) before ->
  Exists (fun i => (length y_train_val <= i)%nat) (fst fold ++ snd fold) ->
  exists lines,
    fold_loop X_train_val y_train_val (before ++ fold :: after) []
    = (lines, Some IndexError) /\
    length lines = length before.
Proof.
  intros Hlen Hbefore Hbad.
  exists (map (line_of y_train_val) before). split; [|apply length_map].
  assert (forall printed,
            fold_loop X_train_val y_train_val (before ++ fold :: after) printed
            = (printed ++ map (line_of y_train_val) before, Some IndexError))
    as H; [|exact (H [])].
  induction Hbefore as [|fd rest Hfd Hrest IH];
    intros printed; cbn [app fold_loop map].
  - rewrite (fold_body_out_of_range X X_train_val y_train_val Hlen fold Hbad).
    now rewrite app_nil_r.
  - rewrite (fold_body_in_range X X_train_val y_train_val Hlen fd Hfd).
    rewrite IH, <- app_assoc. reflexivity.
Qed.

Lemma fold_loop_index_error_witness :
  exists lines,
    fold_loop [10; 20; 30]%nat [1; 0; 1]%Z
      ([([1; 2], [0])] ++ ([0; 2], [3]) :: [([0; 1], [2])])%nat []
    = (lines, Some IndexError) /\
    length lines = 1%nat.
Proof.
  apply (fold_loop_index_error nat [10; 20; 30]%nat [1; 0; 1]%Z
           [([1; 2], [0])]%nat [([0; 1], [2])]%nat ([0; 2], [3])%nat).
  - reflexivity.
  - repeat constructor; simpl; lia.
  - cbn [fst snd app]. right. right. left. simpl. lia.
Defined.

End FoldsFacts.

(** ** Stratification: what the splits keep of each class *)

Module StratifyFacts.

Import Splitter ThreeWay SplitterFacts.

Lemma filter_concat_map {A B} (p : B -> bool) (F : A -> list B) (l : list A) :
  filter p (concat (map F l)) = concat (map (fun a => filter p (F a)) l).
Proof.
  induction l as [|a t IH]; simpl; [reflexivity|].
  now rewrite filter_app, IH.
Qed.

Lemma filter_all_pass {A} (p : A -> bool) (l : list A) :
  (forall a, In a l -> p a = true) -> filter p l = l.
Proof.
  intros H. apply forallb_filter_id, forallb_forall, H.
Qed.

Lemma filter_none_pass {A} (p : A -> bool) (l : list A) :
  (forall a, In a l -> p a = false) -> filter p l = [].
Proof.
  induction l as [|a t IH]; intros H; simpl; [reflexivity|].
  rewrite (H a (or_introl eq_refl)). apply IH.
  intros b Hb. apply H. now right.
Qed.

(** Rows taken class by class: the rows of class [c] among them are the
    ones taken for [c]. *)
Lemma class_count_concat (y : list Z) (c : Z) (F : Z -> list nat)
    (cs : list Z) :
  (forall c' x, In c' cs -> In x (F c') -> label_of y x = c') ->
  count_class y c (concat (map F cs))
  = (count_occ Z.eq_dec cs c * length (F c))%nat.
Proof.
  unfold count_class. intros H. rewrite filter_concat_map.
  induction cs as [|c' t IH]; [reflexivity|].
  cbn [map concat count_occ]. rewrite length_app, IH
    by (intros c'' x Hc Hx; apply (H c'' x); [now right | exact Hx]).
  destruct (Z.eq_dec c' c) as [->|NE].
  - rewrite filter_all_pass; [simpl; lia|].
    intros x Hx. apply Z.eqb_eq. apply (H c x); [now left | exact Hx].
  - rewrite filter_none_pass; [reflexivity|].
    intros x Hx. apply Z.eqb_neq.
    rewrite (H c' x); [exact NE | now left | exact Hx].
Qed.

Lemma group_label (y : list Z) (c : Z) (x : nat) :
  In x (group y c) -> label_of y x = c /\ (x < length y)%nat.
Proof.
  unfold group, indices. intros H. apply filter_In in H as [Hx Hc].
  apply in_seq in Hx. apply Z.eqb_eq in Hc. split; [exact Hc | lia].
Qed.

Lemma in_firstn {A} (n : nat) (l : list A) (x : A) :
  In x (firstn n l) -> In x l.
Proof.
  intros H. rewrite <- (firstn_skipn n l). apply in_or_app. now left.
Qed.

Lemma in_skipn {A} (n : nat) (l : list A) (x : A) :
  In x (skipn n l) -> In x l.
Proof.
  intros H. rewrite <- (firstn_skipn n l). apply in_or_app. now right.
Qed.

Lemma class_once (classes : list Z) (y : list Z) (c : Z) :
  well_labelled classes y = true -> In c classes ->
  count_occ Z.eq_dec classes c = 1%nat.
Proof.
  unfold well_labelled. intros H Hc.
  apply andb_prop in H as [_ Hone]. rewrite forallb_forall in Hone.
  now apply Nat.eqb_eq, Hone.
Qed.

(** *** Folds *)

Lemma chunks_nth_length (sizes : list nat) (l : list nat) (i : nat) :
  (list_sum sizes <= length l)%nat ->
  length (nth i (chunks sizes l) []) = nth i sizes O.
Proof.
  revert l i. induction sizes as [|s t IH]; intros l i H.
  - destruct i; reflexivity.
  - cbn [list_sum fold_right] in H. fold (list_sum t) in H.
    destruct i as [|i]; cbn [chunks nth].
    + apply firstn_length_le. lia.
    + apply IH. rewrite length_skipn. lia.
Qed.

Lemma chunks_nth_incl (sizes : list nat) (l : list nat) (i x : nat) :
  In x (nth i (chunks sizes l) []) -> In x l.
Proof.
  revert l i. induction sizes as [|s t IH]; intros l i H.
  - destruct i; destruct H.
  - destruct i as [|i]; cbn [chunks nth] in H.
    + now apply in_firstn in H.
    + apply IH in H. now apply in_skipn in H.
Qed.

Lemma fold_sizes_nth (m k i : nat) :
  (i < k)%nat ->
  nth i (fold_sizes m k) O = (m / k + (if i <? m mod k then 1 else 0))%nat.
Proof.
  intros Hi. unfold fold_sizes.
  rewrite (nth_indep _ O ((fun j => (m / k + (if j <? m mod k then 1 else 0))%nat) O))
    by (now rewrite length_map, length_seq).
  rewrite (map_nth (fun j => (m / k + (if j <? m mod k then 1 else 0))%nat)).
  now rewrite seq_nth.
Qed.

Lemma validation_class_count
    (sh : shuffler) (classes : list Z) (y : list Z) (k : nat) (seed : Z)
    (c : Z) (i : nat) :
  well_labelled classes y = true -> In c classes ->
  (0 < k)%nat -> (i < k)%nat ->
  count_class y c (validation_fold sh classes y k seed i)
  = (length (group y c) / k
     + (if i <? length (group y c) mod k then 1 else 0))%nat.
Proof.
  intros Hwl Hc Hk Hi. unfold validation_fold.
  rewrite (class_count_concat y c
             (fun c' => nth i (class_folds sh y k seed c') [])).
  2:{ intros c' x _ Hx. unfold class_folds in Hx.
      apply chunks_nth_incl in Hx.
      apply (Permutation_in _ (shuffle_perm sh seed _)) in Hx.
      now apply group_label in Hx. }
  rewrite (class_once classes y c Hwl Hc), Nat.mul_1_l.
  unfold class_folds.
  rewrite chunks_nth_length by (now rewrite fold_sizes_sum).
  rewrite fold_sizes_nth by exact Hi.
  now rewrite (Permutation_length (shuffle_perm sh seed (group y c))).
Qed.

(** X25.  The validation folds are class balanced: for each class, the numbers
    of its rows in any two validation folds differ by at most one, and no
    validation fold is without the class. *)
Theorem stratified_kfold_class_balance
    (sh : shuffler) (classes : list Z) (y : list Z) (k : nat) (seed : Z)
    (c : Z) :
  well_labelled classes y = true ->
  every_class_has classes y k = true ->
  (2 <= k)%nat -> In c classes ->
  exists folds,
    stratified_kfold sh classes y k seed = Done folds /\
    forall i j, (i < k)%nat -> (j < k)%nat ->
      (count_class y c (snd (nth i folds ([], [])))
       <= count_class y c (snd (nth j folds ([], []))) + 1)%nat /\
      (1 <= count_class y c (snd (nth i folds ([], []))))%nat.
Proof.
  intros Hwl Hhas Hk Hc.
  eexists. split.
  { unfold stratified_kfold.
    assert ((k <? 2)%nat = false) as -> by (apply Nat.ltb_ge; exact Hk).
    rewrite Hhas. reflexivity. }
  assert (k <= length (group y c))%nat as Hsize.
  { unfold every_class_has in Hhas. rewrite forallb_forall in Hhas.
    now apply Nat.leb_le, Hhas. }
  assert (1 <= length (group y c) / k)%nat as Hq
    by (apply Nat.div_le_lower_bound; lia).
  assert (forall i, (i < k)%nat ->
            snd (nth i (map (fun i0 => (training_fold sh classes y k seed i0,
                                       validation_fold sh classes y k seed i0))
                            (seq 0 k)) ([], []))
            = validation_fold sh classes y k seed i) as Hnth.
  { intros i Hi.
    rewrite (nth_indep _ ([], [])
               ((fun i0 => (training_fold sh classes y k seed i0,
                            validation_fold sh classes y k seed i0)) O))
      by (now rewrite length_map, length_seq).
    rewrite (map_nth (fun i0 => (training_fold sh classes y k seed i0,
                                 validation_fold sh classes y k seed i0))).
    now rewrite seq_nth. }
  intros i j Hi Hj. rewrite (Hnth i Hi), (Hnth j Hj).
  rewrite !validation_class_count by (assumption || lia).
  destruct (i <? _)%nat, (j <? _)%nat; lia.
Qed.

Lemma stratified_kfold_class_balance_witness :
  exists folds,
    stratified_kfold rotation [0; 1]%Z [0; 0; 0; 0; 0; 0; 0; 1; 1; 1]%Z 3 1
    = Done folds /\
    forall i j, (i < 3)%nat -> (j < 3)%nat ->
      (count_class [0; 0; 0; 0; 0; 0; 0; 1; 1; 1]%Z 0
         (snd (nth i folds ([], [])))
       <= count_class [0; 0; 0; 0; 0; 0; 0; 1; 1; 1]%Z 0
            (snd (nth j folds ([], []))) + 1)%nat /\
      (1 <= count_class [0; 0; 0; 0; 0; 0; 0; 1; 1; 1]%Z 0
              (snd (nth i folds ([], []))))%nat.
Proof.
  apply (stratified_kfold_class_balance rotation [0; 1]%Z
           [0; 0; 0; 0; 0; 0; 0; 1; 1; 1]%Z 3 1 0).
  - reflexivity.
  - reflexivity.
  - lia.
  - now left.
Defined.

End StratifyFacts.

(** ** Worked examples *)

Module Examples.

Import Numpy CI Splitter.

(** The scores of the specification's scenario: the 10th and the 90th
    percentile by linear interpolation. *)
Example percentile_10_90 :
  exists p p',
    percentile [2 # 5; 9 # 20; 1 # 2; 11 # 20; 3 # 5] 10 = Ok p /\
    percentile [2 # 5; 9 # 20; 1 # 2; 11 # 20; 3 # 5] 90 = Ok p' /\
    p == 21 # 50 /\ p' == 29 # 50.
Proof.
  do 2 eexists. split; [vm_compute; reflexivity|].
  split; [vm_compute; reflexivity|]. split; reflexivity.
Qed.

(** The order of the scores does not matter. *)
Example percentile_unsorted :
  exists p,
    percentile [3 # 5; 2 # 5; 1 # 2] 50 = Ok p /\ p == 1 # 2.
Proof. eexists. split; [vm_compute; reflexivity | reflexivity]. Qed.

Example percentile_out_of_range :
  percentile [1 # 2] 101 = Raise ValueError.
Proof. reflexivity. Qed.

(** The interval of the same scores at level 0.8, through the function. *)
Example interval_at_80 :
  exists lo hi,
    fst (run (confidence_intervals percentile
                {| f1s := Some [2 # 5; 9 # 20; 1 # 2; 11 # 20; 3 # 5] |}
                [2 # 5; 9 # 20; 1 # 2; 11 # 20; 3 # 5] (8 # 10)))
    = Ok [lo; hi] /\ lo == 21 # 50 /\ hi == 29 # 50.
Proof.
  do 2 eexists. split; [vm_compute; reflexivity|]. split; reflexivity.
Qed.

(** Before the plotting cell has bound [f1s], the call raises. *)
Example interval_unbound :
  run (confidence_intervals percentile {| f1s := None |} [1 # 2] (95 # 100))
  = (Raise NameError, []).
Proof. reflexivity. Qed.

(** Ten records, seven of class 0 and three of class 1, a fifth held out:
    one record of each class goes to the test partition. *)
Example split_ten_records :
  stratified_split rotation [0; 1]%Z [0; 0; 0; 0; 0; 0; 0; 1; 1; 1]%Z
    (2 # 10) 3
  = Done ([4; 5; 6; 0; 1; 2; 8; 9]%nat, [3; 7]%nat).
Proof. reflexivity. Qed.

Example split_bad_fraction :
  stratified_split rotation [0; 1]%Z [0; 1]%Z 1 3 = Fail InvalidFractionError.
Proof. reflexivity. Qed.

Example split_missing_class :
  stratified_split rotation [0; 1]%Z [0; 0]%Z (1 # 2) 3
  = Fail InsufficientDataError.
Proof. reflexivity. Qed.

(** Sizes of the chunks of seven indices in three folds: the remainder goes
    to the first fold. *)
Example fold_sizes_7_3 : fold_sizes 7 3 = [3; 2; 2]%nat.
Proof. reflexivity. Qed.

Example kfold_ten_records :
  stratified_kfold rotation [0; 1]%Z [0; 0; 0; 0; 0; 0; 0; 1; 1; 1]%Z 3 1
  = Done [ ([4; 5; 9; 6; 0; 7]%nat, [1; 2; 3; 8]%nat);
           ([1; 2; 3; 8; 6; 0; 7]%nat, [4; 5; 9]%nat);
           ([1; 2; 3; 8; 4; 5; 9]%nat, [6; 0; 7]%nat) ].
Proof. reflexivity. Qed.

Example kfold_too_few :
  stratified_kfold rotation [0; 1]%Z [0; 0; 0; 0; 0; 0; 0; 1; 1; 1]%Z 4 1
  = Fail InsufficientDataError.
Proof. reflexivity. Qed.

Example rounding :
  map round [1 # 2; 3 # 2; 5 # 2; 14 # 10; 6 # 10] = [0; 2; 2; 1; 1]%Z.
Proof. reflexivity. Qed.

Example tasty_ratio_third :
  Frame.tasty_ratio
    [ {| Frame.features := []; Frame.tasty := 1 |};
      {| Frame.features := []; Frame.tasty := 0 |};
      {| Frame.features := []; Frame.tasty := 0 |} ] = Ok (1 # 3).
Proof. reflexivity. Qed.

Example tasty_ratio_empty :
  Frame.tasty_ratio [] = Raise ZeroDivisionError.
Proof. reflexivity. Qed.

(** A classifier that finds one of two positives and raises one false
    alarm. *)
Example evaluate_half :
  exists r,
    Metrics.evaluate (fun _ : list nat => [1; 0; 1]%Z) [1; 2; 3]%nat
      [1; 1; 0]%Z = Ok r /\
    Metrics.f1 r == 1 # 2 /\ Metrics.precision r == 1 # 2 /\
    Metrics.recall r == 1 # 2.
Proof. eexists. split; [reflexivity|]. repeat split; reflexivity. Qed.

Example evaluate_length_mismatch :
  Metrics.evaluate (fun _ : list nat => [1; 0]%Z) [1; 2; 3]%nat [1; 1; 0]%Z
  = Raise ValueError.
Proof. reflexivity. Qed.

End Examples.
